(** * rsimpl sensor endpoints (src/subdevice.h)

    A shallow embedding of the endpoint layer of the driver stack:
    the rolling timestamp reader, the lazily enumerated stream profiles
    of [endpoint], the construction of [hid_endpoint] and the scoped
    [power] token of [uvc_endpoint].

    Conventions.
    - C++ [int]/[int32_t], [int64_t] and [unsigned long long] are [Z]
      with the wrap-around written out ([wrap32], [wrap64], [to_uint64]).
      The source itself notes that the timestamp delta relies on signed
      wrap-around; the embedding gives every signed overflow the
      two's-complement result.
    - A frame ([const void *]) is the list of bytes found from the pointer
      on.  Reading past its end is undefined in C++ and is [None] here.
    - Member functions that mutate their object take the old object and
      return the new one. *)

From Stdlib Require Import ZArith Lia List Bool.
From Stdlib.Strings Require Import Byte.
From stdpp Require Import base option list gmap.
Import ListNotations.
Local Open Scope Z_scope.

(** ** Machine integers

    The moduli are written as literals: [2^31 = 2147483648],
    [2^32 = 4294967296], [2^63 = 9223372036854775808] and
    [2^64 = 18446744073709551616]. *)

Definition wrap32 (z : Z) : Z := (z + 2147483648) mod 4294967296 - 2147483648.
Definition wrap64 (z : Z) : Z :=
  (z + 9223372036854775808) mod 18446744073709551616 - 9223372036854775808.
Definition to_uint64 (z : Z) : Z := z mod 18446744073709551616.

Definition in_int32 (z : Z) : Prop := - 2147483648 <= z < 2147483648.
Definition in_int64 (z : Z) : Prop :=
  - 9223372036854775808 <= z < 9223372036854775808.

(** ** Frames *)

Definition u8 (b : byte) : Z := Z.of_N (Byte.to_N b).

(** [*reinterpret_cast<const int32_t *>(frame)]: the first four bytes,
    least significant first (the byte order of the supported hosts). *)
Definition read_int32 (frame : list byte) : option Z :=
  match frame with
  | b0 :: b1 :: b2 :: b3 :: _ =>
      Some (wrap32 (u8 b0 + 256 * u8 b1 + 65536 * u8 b2 + 16777216 * u8 b3))
  | _ => None
  end.

(** The inverse direction, used to build frames that carry a given
    counter value in their first four bytes. *)
Definition byte_of_Z (z : Z) : byte :=
  match Byte.of_N (Z.to_N (z mod 256)) with
  | Some b => b
  | None => x00
  end.

Definition frame_of_counter (c : Z) (payload : list byte) : list byte :=
  let u := c mod 4294967296 in
  byte_of_Z u :: byte_of_Z (u / 256) :: byte_of_Z (u / 65536)
    :: byte_of_Z (u / 16777216) :: payload.

(** ** Stream descriptions

    [uvc::stream_profile], [native_pixel_format] and [request_mapping] are
    declared in headers that subdevice.h includes; only the members it
    touches appear here.  [get_image_size] is the pixel format's decoded
    image size in bytes ([size_t]). *)

Record stream_profile := {
  width : Z;
  height : Z;
  fps : Z;
  format : Z
}.

Record native_pixel_format := {
  fourcc : Z;
  get_image_size : Z -> Z -> N
}.

Record request_mapping := {
  profile : stream_profile;
  pf : native_pixel_format
}.

Definition image_size (mode : request_mapping) : N :=
  get_image_size (pf mode) (width (profile mode)) (height (profile mode)).

(** ** rolling_timestamp_reader *)

Record rolling_timestamp_reader := {
  started : bool;
  total : Z;
  last_timestamp : Z;
  counter : Z
}.

(** The constructor value-initialises [started] and [total]; [counter] has
    a default member initialiser; [last_timestamp] is left uninitialised,
    so its indeterminate content is an argument. *)
Definition rolling_timestamp_reader_new (indeterminate : Z)
  : rolling_timestamp_reader :=
  {| started := false; total := 0;
     last_timestamp := wrap32 indeterminate; counter := 0 |}.

(** The scanning loop of [validate_frame]: [n] bytes remain between [it]
    and [end]. *)
Fixpoint scan_nonzero (n : nat) (it : list byte) : option bool :=
  match n with
  | O => Some false
  | S n' =>
      match it with
      | [] => None
      | b :: it' => if negb (u8 b =? 0) then Some true else scan_nonzero n' it'
      end
  end.

Definition validate_frame (mode : request_mapping) (frame : list byte)
  : option bool :=
  scan_nonzero (N.to_nat (image_size mode)) frame.

(** The returned [double] is the conversion of the 32-bit [timestamp],
    which is exact, so the result is given as that integer. *)
Definition get_frame_timestamp (r : rolling_timestamp_reader)
    (mode : request_mapping) (frame : list byte)
  : option (Z * rolling_timestamp_reader) :=
  match read_int32 frame with
  | None => None
  | Some rolling_timestamp =>
      let r1 :=
        if negb (started r)
        then {| started := true; total := total r;
                last_timestamp := rolling_timestamp; counter := counter r |}
        else r in
      let delta := wrap32 (rolling_timestamp - last_timestamp r1) in
      let total' := wrap64 (total r1 + delta) in
      let timestamp := wrap32 (Z.quot total' 100000) in
      Some (timestamp,
            {| started := started r1; total := total';
               last_timestamp := rolling_timestamp; counter := counter r1 |})
  end.

(** [return ++counter;] on the [mutable int64_t], converted to
    [unsigned long long]. *)
Definition get_frame_counter (r : rolling_timestamp_reader)
    (mode : request_mapping) (frame : list byte)
  : Z * rolling_timestamp_reader :=
  let counter' := wrap64 (counter r + 1) in
  (to_uint64 counter',
   {| started := started r; total := total r;
      last_timestamp := last_timestamp r; counter := counter' |}).

(** *** Driving a reader

    The three operations of [frame_timestamp_reader], as calls that can be
    interleaved on one reader. *)

Inductive reader_call :=
| call_validate_frame (mode : request_mapping) (frame : list byte)
| call_get_frame_timestamp (mode : request_mapping) (frame : list byte)
| call_get_frame_counter (mode : request_mapping) (frame : list byte).

Inductive reader_result :=
| ret_valid (b : bool)
| ret_timestamp (t : Z)
| ret_counter (c : Z).

Definition reader_step (r : rolling_timestamp_reader) (c : reader_call)
  : option (reader_result * rolling_timestamp_reader) :=
  match c with
  | call_validate_frame mode frame =>
      match validate_frame mode frame with
      | Some b => Some (ret_valid b, r)
      | None => None
      end
  | call_get_frame_timestamp mode frame =>
      match get_frame_timestamp r mode frame with
      | Some (t, r') => Some (ret_timestamp t, r')
      | None => None
      end
  | call_get_frame_counter mode frame =>
      let '(n, r') := get_frame_counter r mode frame in
      Some (ret_counter n, r')
  end.

Fixpoint reader_run (r : rolling_timestamp_reader) (cs : list reader_call)
  : option (list reader_result * rolling_timestamp_reader) :=
  match cs with
  | [] => Some ([], r)
  | c :: cs' =>
      match reader_step r c with
      | None => None
      | Some (x, r') =>
          match reader_run r' cs' with
          | None => None
          | Some (xs, r'') => Some (x :: xs, r'')
          end
      end
  end.

(** A call is defined when it reads inside its frame. *)
Definition call_defined (c : reader_call) : bool :=
  match c with
  | call_validate_frame mode frame =>
      match validate_frame mode frame with Some _ => true | None => false end
  | call_get_frame_timestamp _ frame => (4 <=? length frame)%nat
  | call_get_frame_counter _ _ => true
  end.

Definition is_counter_call (c : reader_call) : bool :=
  match c with call_get_frame_counter _ _ => true | _ => false end.

Fixpoint counter_results (xs : list reader_result) : list Z :=
  match xs with
  | [] => []
  | ret_counter n :: xs' => n :: counter_results xs'
  | _ :: xs' => counter_results xs'
  end.

Fixpoint timestamp_results (xs : list reader_result) : list Z :=
  match xs with
  | [] => []
  | ret_timestamp t :: xs' => t :: timestamp_results xs'
  | _ :: xs' => timestamp_results xs'
  end.

Fixpoint non_decreasing (l : list Z) : bool :=
  match l with
  | x :: ((y :: _) as tl) => (x <=? y) && non_decreasing tl
  | _ => true
  end.

(** The counter sequence of the rollover scenario, and a long run in which
    every frame advances the hardware counter by [2^31 - 1] ticks. *)
Definition rollover_counters : list Z :=
  [100; 150; 2147483648 - 10; - 2147483648 + 5].

Definition timestamp_calls (mode : request_mapping) (counters : list Z)
  : list reader_call :=
  map (fun c => call_get_frame_timestamp mode (frame_of_counter c [])) counters.

Fixpoint counters_from (c step : Z) (n : nat) : list Z :=
  match n with
  | O => []
  | S n' => c :: counters_from (wrap32 (c + step)) step n'
  end.

Definition fast_counters (n : nat) : list Z :=
  counters_from 0 2147483647 n.

(** ** endpoint (abstract base) *)

Inductive rs_error :=
| wrong_api_call_sequence
| invalid_value
| not_supported
| power_failure.

Definition result (A : Type) : Type := rs_error + A.

(** Modelled from the spec: [lazy<T>], the compute-or-return-cached
    primitive behind [_stream_profiles], is declared in a header that is
    not part of subdevice.h.  It holds the value once it has been computed
    and runs its initialiser only while it holds none. *)
Record lazy (T : Type) := make_lazy { lazy_cached : option T }.
Arguments make_lazy {T} _.
Arguments lazy_cached {T} _.

Definition lazy_deref {T S : Type} (init : S -> T * S) (l : lazy T) (s : S)
  : T * lazy T * S :=
  match lazy_cached l with
  | Some v => (v, l, s)
  | None => let '(v, s') := init s in (v, make_lazy (Some v), s')
  end.

(** Frames handed out to the application, with the metadata they are
    tagged with. *)
Record frame_additional_data := {
  frame_timestamp : Z;
  frame_number : Z
}.

Record rs_frame := {
  frame_size : N;
  additional_data : frame_additional_data
}.

(** Modelled from the spec: the frame-buffer pool behind [_archive] is an
    external collaborator; it has a number of buffers left to hand out
    and the list of frames that are published and not yet released. *)
Record frame_archive := {
  free_buffers : nat;
  published_frames : list rs_frame
}.

Record endpoint := {
  _is_streaming : bool;
  _is_opened : bool;
  _archive : frame_archive;
  _max_publish_list_size : Z;
  _pixel_formats : list native_pixel_format;
  _stream_profiles : lazy (list stream_profile)
}.

(** [endpoint::endpoint()].  The archive is not set by the constructor; the
    pool the endpoint will later use is an argument. *)
Definition endpoint_new (archive : frame_archive) : endpoint :=
  {| _is_streaming := false;
     _is_opened := false;
     _archive := archive;
     _max_publish_list_size := 16;
     _pixel_formats := [];
     _stream_profiles := make_lazy None |}.

(** The pure virtual [init_stream_profiles]: a subclass enumerates the
    profiles of its device, whose state is [D]. *)
Class endpoint_kind (D : Type) := {
  init_stream_profiles : D -> list stream_profile * D
}.

(** [get_stream_profiles]: [return *_stream_profiles;], the lazy value
    having been built from [[this]() { return this->init_stream_profiles(); }]. *)
Definition get_stream_profiles {D : Type} `{endpoint_kind D}
    (e : endpoint) (d : D) : list stream_profile * endpoint * D :=
  let '(v, l, d') := lazy_deref init_stream_profiles (_stream_profiles e) d in
  (v,
   {| _is_streaming := _is_streaming e; _is_opened := _is_opened e;
      _archive := _archive e;
      _max_publish_list_size := _max_publish_list_size e;
      _pixel_formats := _pixel_formats e;
      _stream_profiles := l |},
   d').

(** [n] successive calls, collecting what each returns. *)
Fixpoint get_stream_profiles_times {D : Type} `{endpoint_kind D}
    (n : nat) (e : endpoint) (d : D)
  : list (list stream_profile) * endpoint * D :=
  match n with
  | O => ([], e, d)
  | S n' =>
      let '(v, e1, d1) := get_stream_profiles e d in
      let '(vs, e2, d2) := get_stream_profiles_times n' e1 d1 in
      (v :: vs, e2, d2)
  end.

(** An enumeration that counts how often it is invoked, on top of any
    device: the counter is the second component of the state. *)
#[local] Instance counting_kind {D : Type} `{endpoint_kind D}
  : endpoint_kind (D * nat) :=
  {| init_stream_profiles :=
       fun s => let '(v, d') := init_stream_profiles (fst s) in
                (v, (d', S (snd s))) |}.

Definition is_streaming (e : endpoint) : bool := _is_streaming e.

Definition register_pixel_format (e : endpoint) (p : native_pixel_format)
  : endpoint :=
  {| _is_streaming := _is_streaming e; _is_opened := _is_opened e;
     _archive := _archive e;
     _max_publish_list_size := _max_publish_list_size e;
     _pixel_formats := _pixel_formats e ++ [p];
     _stream_profiles := _stream_profiles e |}.

Definition with_archive (e : endpoint) (a : frame_archive) : endpoint :=
  {| _is_streaming := _is_streaming e; _is_opened := _is_opened e;
     _archive := a;
     _max_publish_list_size := _max_publish_list_size e;
     _pixel_formats := _pixel_formats e;
     _stream_profiles := _stream_profiles e |}.

(** Modelled from the spec: [alloc_frame] is only declared in subdevice.h.
    It takes a buffer from the pool and publishes the frame; under
    backpressure (no buffer left, or [_max_publish_list_size] frames
    already published and unreleased) it yields the null frame, which is
    a normal result and not an [rs_error]. *)
Definition alloc_frame (e : endpoint) (size : N) (ad : frame_additional_data)
  : result (option rs_frame * endpoint) :=
  let a := _archive e in
  if (free_buffers a =? 0)%nat then inr (None, e)
  else if _max_publish_list_size e <=? Z.of_nat (length (published_frames a))
  then inr (None, e)
  else
    let f := {| frame_size := size; additional_data := ad |} in
    inr (Some f,
         with_archive e
           {| free_buffers := Nat.pred (free_buffers a);
              published_frames := published_frames a ++ [f] |}).

(** Allocating [n] frames in a row without releasing any. *)
Fixpoint alloc_frames (n : nat) (e : endpoint) (size : N)
    (ad : frame_additional_data) : result (list (option rs_frame) * endpoint) :=
  match n with
  | O => inr ([], e)
  | S n' =>
      match alloc_frame e size ad with
      | inl err => inl err
      | inr (f, e1) =>
          match alloc_frames n' e1 size ad with
          | inl err => inl err
          | inr (fs, e2) => inr (f :: fs, e2)
          end
      end
  end.

(** Modelled from the spec: the handler that [start_streaming] installs
    for incoming buffers is not in subdevice.h.  A buffer is validated
    first; one that fails validation is dropped without being
    timestamped; an accepted one gets its timestamp and frame number. *)
Definition on_frame (r : rolling_timestamp_reader) (mode : request_mapping)
    (frame : list byte)
  : option (option frame_additional_data * rolling_timestamp_reader) :=
  match validate_frame mode frame with
  | None => None
  | Some false => Some (None, r)
  | Some true =>
      match get_frame_timestamp r mode frame with
      | None => None
      | Some (t, r1) =>
          let '(n, r2) := get_frame_counter r1 mode frame in
          Some (Some {| frame_timestamp := t; frame_number := n |}, r2)
      end
  end.

(** ** hid_endpoint *)

Record hid_sensor := {
  iio : Z;
  sensor_name : list byte
}.

(** The operations of [uvc::hid_device] that the constructor calls; [H] is
    the state of the device behind the shared pointer. *)
Class hid_device (H : Type) := {
  hid_open : H -> H;
  hid_get_sensors : H -> list hid_sensor * H;
  hid_close : H -> H
}.

Record hid_endpoint := {
  hid_base : endpoint;
  _configured_sensor_iio : list Z;
  _hid_sensors : list hid_sensor
}.

(** The range-for loop: every element of the returned vector is pushed
    onto the back of [_hid_sensors]. *)
Fixpoint push_back_all (dst src : list hid_sensor) : list hid_sensor :=
  match src with
  | [] => dst
  | elem :: src' => push_back_all (dst ++ [elem]) src'
  end.

(** [hid_endpoint::hid_endpoint(hid_device)]: returns the new endpoint and
    the state in which the call leaves the shared device. *)
Definition hid_endpoint_new {H : Type} `{hid_device H}
    (archive : frame_archive) (dev : H) : hid_endpoint * H :=
  let dev1 := hid_open dev in
  let '(sensors, dev2) := hid_get_sensors dev1 in
  let hid_sensors := push_back_all [] sensors in
  let dev3 := hid_close dev2 in
  ({| hid_base := endpoint_new archive;
      _configured_sensor_iio := [];
      _hid_sensors := hid_sensors |},
   dev3).

(** A device that records the calls made on it and whose sensor list can
    change between calls. *)
Inductive hid_call := hid_call_open | hid_call_get_sensors | hid_call_close.

Record recording_hid := {
  rec_opened : bool;
  rec_sensors : list hid_sensor;
  rec_calls : list hid_call
}.

#[local] Instance recording_hid_device : hid_device recording_hid :=
  {| hid_open := fun d =>
       {| rec_opened := true; rec_sensors := rec_sensors d;
          rec_calls := rec_calls d ++ [hid_call_open] |};
     hid_get_sensors := fun d =>
       (rec_sensors d,
        {| rec_opened := rec_opened d; rec_sensors := rec_sensors d;
           rec_calls := rec_calls d ++ [hid_call_get_sensors] |});
     hid_close := fun d =>
       {| rec_opened := false; rec_sensors := rec_sensors d;
          rec_calls := rec_calls d ++ [hid_call_close] |} |}.

Definition replace_sensors (d : recording_hid) (l : list hid_sensor)
  : recording_hid :=
  {| rec_opened := rec_opened d; rec_sensors := l; rec_calls := rec_calls d |}.

(** ** uvc_endpoint and its power token *)

Inductive power_event :=
| device_power_on (dev : nat)
| device_power_off (dev : nat).

Record uvc_endpoint := {
  uvc_base : endpoint;
  _device : nat;
  _user_count : Z;
  _configuration : list stream_profile
}.

(** [uvc_endpoint::uvc_endpoint(uvc_device)]. *)
Definition uvc_endpoint_new (archive : frame_archive) (uvc_device : nat)
  : uvc_endpoint :=
  {| uvc_base := endpoint_new archive;
     _device := uvc_device;
     _user_count := 0;
     _configuration := [] |}.

(** The objects a [std::weak_ptr<uvc_endpoint>] can refer to: the
    endpoints that are still alive, by address, and what has been done to
    the devices so far. *)
Record heap := {
  endpoints : gmap nat uvc_endpoint;
  device_log : list power_event
}.

(** [_owner.lock()] *)
Definition lock (owner : nat) (h : heap) : option uvc_endpoint :=
  endpoints h !! owner.

(** The last [shared_ptr] to the endpoint goes away: from now on [lock]
    on its address yields null. *)
Definition expire_owner (owner : nat) (h : heap) : heap :=
  {| endpoints := delete owner (endpoints h); device_log := device_log h |}.

Record power := { _owner : nat }.

Section power.

(** [acquire_power] and [release_power] are private members declared in
    subdevice.h; the token only calls them.  They act on the endpoint
    and on the devices, and acquiring can fail. *)
Variable acquire_power :
  uvc_endpoint -> list power_event -> result (uvc_endpoint * list power_event).
Variable release_power :
  uvc_endpoint -> list power_event -> uvc_endpoint * list power_event.

(** [power::power(owner)] *)
Definition power_new (owner : nat) (h : heap) : result (power * heap) :=
  match lock owner h with
  | Some strong =>
      match acquire_power strong (device_log h) with
      | inl err => inl err
      | inr (strong', log') =>
          inr ({| _owner := owner |},
               {| endpoints := <[owner := strong']> (endpoints h);
                  device_log := log' |})
      end
  | None => inr ({| _owner := owner |}, h)
  end.

(** [power::~power()] *)
Definition power_delete (p : power) (h : heap) : heap :=
  match lock (_owner p) h with
  | Some strong =>
      let '(strong', log') := release_power strong (device_log h) in
      {| endpoints := <[_owner p := strong']> (endpoints h);
         device_log := log' |}
  | None => h
  end.

(** [invoke_powered(action)]: the token [on] lives for the duration of
    the action and is destroyed on the way out, also when the action
    fails. *)
Definition invoke_powered {A : Type} (this : nat)
    (action : heap -> result A * heap) (h : heap) : result A * heap :=
  match power_new this h with
  | inl err => (inl err, h)
  | inr (on, h1) =>
      let '(res, h2) := action h1 in
      (res, power_delete on h2)
  end.

End power.

Definition set_user_count (e : uvc_endpoint) (c : Z) : uvc_endpoint :=
  {| uvc_base := uvc_base e; _device := _device e; _user_count := c;
     _configuration := _configuration e |}.

(** Modelled from the spec: the body of [acquire_power] is not in
    subdevice.h.  It increments the user count and, when the count was 0
    before, powers the device on; powering on is done by the transport and
    may fail ([transport_ok] is its outcome), in which case the failure
    reaches the caller and the count is left as it was. *)
Definition acquire_power (transport_ok : bool) (e : uvc_endpoint)
    (log : list power_event) : result (uvc_endpoint * list power_event) :=
  if _user_count e =? 0 then
    if transport_ok
    then inr (set_user_count e (wrap32 (_user_count e + 1)),
              log ++ [device_power_on (_device e)])
    else inl power_failure
  else inr (set_user_count e (wrap32 (_user_count e + 1)), log).

(** Modelled from the spec: the body of [release_power] is not in
    subdevice.h.  It decrements the user count and, when the count is 0
    afterwards, powers the device off. *)
Definition release_power (e : uvc_endpoint) (log : list power_event)
  : uvc_endpoint * list power_event :=
  let c := wrap32 (_user_count e - 1) in
  (set_user_count e c,
   if c =? 0 then log ++ [device_power_off (_device e)] else log).

(** Tokens are constructed and destroyed one after the other on the
    endpoint at address [a]; the tokens alive are kept in [held]. *)
Inductive gate_op :=
| gate_construct (transport_ok : bool)
| gate_destroy.

Definition gate_step (a : nat) (st : heap * list power) (op : gate_op)
  : heap * list power :=
  let '(h, held) := st in
  match op with
  | gate_construct ok =>
      match power_new (acquire_power ok) a h with
      | inl _ => (h, held)
      | inr (p, h') => (h', p :: held)
      end
  | gate_destroy =>
      match held with
      | [] => (h, held)
      | p :: held' => (power_delete release_power p h, held')
      end
  end.

Definition user_count_at (a : nat) (h : heap) : option Z :=
  _user_count <$> lock a h.

(** Runs the operations and records the user count after each of them. *)
Fixpoint gate_run (a : nat) (st : heap * list power) (ops : list gate_op)
  : heap * list power * list (option Z) :=
  match ops with
  | [] => (st, [])
  | op :: ops' =>
      let st' := gate_step a st op in
      let '(st'', hist) := gate_run a st' ops' in
      (st'', user_count_at a (fst st') :: hist)
  end.

(** The user counts the operations should produce, from the count [c]
    and the number [held] of tokens alive: a construction that succeeds
    adds one, a destruction of a held token takes one away.  A
    construction fails only when it has to power the device on and the
    transport refuses. *)
Definition expected_step (c : Z) (held : nat) (op : gate_op) : Z * nat :=
  match op with
  | gate_construct ok =>
      if (c =? 0) && negb ok then (c, held) else (c + 1, S held)
  | gate_destroy =>
      match held with
      | O => (c, O)
      | S held' => (c - 1, held')
      end
  end.

Fixpoint expected_counts (c : Z) (held : nat) (ops : list gate_op) : list Z :=
  match ops with
  | [] => []
  | op :: ops' =>
      let '(c', held') := expected_step c held op in
      c' :: expected_counts c' held' ops'
  end.

(** The power events that a sequence of user counts calls for: one
    power-on for each step from 0 to 1, one power-off for each step from
    1 to 0, nothing else. *)
Definition transition_events (dev : nat) (before after : Z)
  : list power_event :=
  if (before =? 0) && (after =? 1) then [device_power_on dev]
  else if (before =? 1) && (after =? 0) then [device_power_off dev]
  else [].

Fixpoint events_of_counts (dev : nat) (c : Z) (counts : list Z)
  : list power_event :=
  match counts with
  | [] => []
  | c' :: counts' =>
      transition_events dev c c' ++ events_of_counts dev c' counts'
  end.

(** A heap with one endpoint, at address 0, on device 7. *)
Definition one_endpoint_heap : heap :=
  {| endpoints :=
       {[ 0%nat := uvc_endpoint_new
                     {| free_buffers := 32; published_frames := [] |} 7%nat ]};
     device_log := [] |}.

(** ** Sample inputs *)

(** A pixel format with two bytes per pixel, and two request mappings on
    it: a 2x2 image (8 bytes) and a 0x0 image (0 bytes). *)
Definition two_bytes_per_pixel : native_pixel_format :=
  {| fourcc := 844715353; get_image_size := fun w h => Z.to_N (w * h * 2) |}.

Definition mode_2x2 : request_mapping :=
  {| profile := {| width := 2; height := 2; fps := 30; format := 0 |};
     pf := two_bytes_per_pixel |}.

Definition mode_0x0 : request_mapping :=
  {| profile := {| width := 0; height := 0; fps := 30; format := 0 |};
     pf := two_bytes_per_pixel |}.

Definition zero_frame_8 : list byte := repeat x00 8.

Definition one_nonzero_frame_8 : list byte :=
  [x00; x00; x00; x00; x00; x2a; x00; x00].

Definition sample_archive : frame_archive :=
  {| free_buffers := 32; published_frames := [] |}.

(** An endpoint kind whose device reports a different profile each time
    it is enumerated: the device state is the number of enumerations that
    it has served. *)
Definition vga_profile (served : nat) : stream_profile :=
  {| width := 640; height := 480; fps := 30 + Z.of_nat served; format := 0 |}.

#[local] Instance growing_kind : endpoint_kind nat :=
  {| init_stream_profiles := fun served => ([vga_profile served], S served) |}.

(** The two sensors of a motion module, named gyro_3d and accel_3d. *)
Definition gyro_sensor : hid_sensor :=
  {| iio := 0; sensor_name := [x67; x79; x72; x6f; x5f; x33; x64] |}.

Definition accel_sensor : hid_sensor :=
  {| iio := 1; sensor_name := [x61; x63; x63; x65; x6c; x5f; x33; x64] |}.

(** Two nested tokens, released; a construction that the transport
    refuses; one more token, released. *)
Definition nested_gate_ops : list gate_op :=
  [ gate_construct true; gate_construct false; gate_destroy; gate_destroy;
    gate_construct false; gate_construct true; gate_destroy ].

(** Calls of the three operations interleaved on one reader: a rejected
    frame, an accepted one, and frames with different counters. *)
Definition interleaved_calls : list reader_call :=
  [ call_get_frame_counter mode_2x2 zero_frame_8;
    call_validate_frame mode_2x2 zero_frame_8;
    call_get_frame_counter mode_0x0 [];
    call_get_frame_timestamp mode_2x2 (frame_of_counter 700000 []);
    call_validate_frame mode_2x2 one_nonzero_frame_8;
    call_get_frame_timestamp mode_2x2 (frame_of_counter 750000 []);
    call_get_frame_counter mode_2x2 one_nonzero_frame_8 ].

(** The reader before and after the call that follows 100001 frames whose
    counters advance by [2^31 - 1] each. *)
Definition reader_after_fast_run : rolling_timestamp_reader :=
  {| started := true; total := 214748364700000;
     last_timestamp := -100000; counter := 0 |}.

Definition reader_past_int_range : rolling_timestamp_reader :=
  {| started := true; total := 214750512183647;
     last_timestamp := 2147383647; counter := 0 |}.

(** ** Runs of frames with known tick values

    The hardware counts ticks without bound; a frame carries the tick
    value of its capture reduced to 32 bits. *)

Definition carries_tick (frame : list byte) (T : Z) : Prop :=
  read_int32 frame = Some (wrap32 T).

(** Consecutive tick values, starting from [T], differ by an amount that
    fits a 32-bit signed integer. *)
Fixpoint steps_fit_int32 (T : Z) (Ts : list Z) : bool :=
  match Ts with
  | [] => true
  | T' :: Ts' =>
      (- 2147483648 <=? T' - T) && (T' - T <? 2147483648)
      && steps_fit_int32 T' Ts'
  end.

(** The same with the ticks moving forward only. *)
Fixpoint steps_forward (T : Z) (Ts : list Z) : bool :=
  match Ts with
  | [] => true
  | T' :: Ts' =>
      (0 <=? T' - T) && (T' - T <? 2147483648) && steps_forward T' Ts'
  end.

(** The ticks elapsed since [T0] fit the 64-bit total. *)
Definition elapsed_fits_int64 (T0 : Z) (Ts : list Z) : bool :=
  forallb (fun T => (- 9223372036854775808 <=? T - T0)
                    && (T - T0 <? 9223372036854775808)) Ts.

(** The timestamps of the elapsed ticks stay inside the [int] range. *)
Definition timestamps_fit_int32 (T0 : Z) (Ts : list Z) : bool :=
  forallb (fun T => Z.quot (T - T0) 100000 <? 2147483648) Ts.

Definition timestamp_of_ticks (T0 T : Z) : Z :=
  wrap32 (Z.quot (T - T0) 100000).

(** Two readers that can differ only in a [last_timestamp] that has not
    been written yet. *)
Definition agree_up_to_unset_last (r r' : rolling_timestamp_reader) : Prop :=
  started r = started r' /\ total r = total r' /\ counter r = counter r'
  /\ (started r = true -> last_timestamp r = last_timestamp r').

Definition is_timestamp_call (c : reader_call) : bool :=
  match c with call_get_frame_timestamp _ _ => true | _ => false end.

(** Two readers that can differ only in their frame counter. *)
Definition agree_except_counter (r r' : rolling_timestamp_reader) : Prop :=
  started r = started r' /\ total r = total r'
  /\ last_timestamp r = last_timestamp r'.

(** Tick values around a rollover of the 32-bit counter, and the frames
    that carry them. *)
Definition rollover_ticks : list Z :=
  [4294000000; 4294900000; 4295800000; 4296700000].

Definition rollover_frames : list (list byte) :=
  map (fun T => frame_of_counter T [x01]) rollover_ticks.



(** * Properties *)

(** ** Machine integers *)

Lemma wrap32_range (z : Z) : in_int32 (wrap32 z).
Proof.
  unfold in_int32, wrap32.
  pose proof (Z.mod_pos_bound (z + 2147483648) 4294967296). lia.
Qed.

Lemma wrap32_id (z : Z) : in_int32 z -> wrap32 z = z.
Proof.
  unfold in_int32, wrap32. intros Hz.
  rewrite Z.mod_small by lia. lia.
Qed.

Lemma wrap64_range (z : Z) : in_int64 (wrap64 z).
Proof.
  unfold in_int64, wrap64.
  pose proof (Z.mod_pos_bound (z + 9223372036854775808) 18446744073709551616).
  lia.
Qed.

Lemma wrap64_id (z : Z) : in_int64 z -> wrap64 z = z.
Proof.
  unfold in_int64, wrap64. intros Hz.
  rewrite Z.mod_small by lia. lia.
Qed.

(** Subtracting from a wrapped value and wrapping again is the same as
    wrapping the exact difference: the delta of two counter readings only
    depends on the readings modulo [2^32]. *)
Lemma wrap32_sub_wrap32_l (a b : Z) : wrap32 (wrap32 a - b) = wrap32 (a - b).
Proof.
  unfold wrap32. f_equal.
  replace ((a + 2147483648) mod 4294967296 - 2147483648 - b + 2147483648)
    with ((a + 2147483648) mod 4294967296 + (- b)) by lia.
  rewrite Z.add_mod_idemp_l by lia. f_equal. lia.
Qed.

Lemma to_uint64_id (z : Z) : 0 <= z < 18446744073709551616 -> to_uint64 z = z.
Proof. intros Hz. unfold to_uint64. apply Z.mod_small. exact Hz. Qed.

(** ** Frames *)

Lemma u8_range (b : byte) : 0 <= u8 b < 256.
Proof.
  unfold u8. pose proof (Byte.to_N_bounded b) as Hb. lia.
Qed.

Lemma u8_byte_of_Z (z : Z) : u8 (byte_of_Z z) = z mod 256.
Proof.
  unfold u8, byte_of_Z.
  pose proof (Z.mod_pos_bound z 256 ltac:(lia)) as Hz.
  destruct (Byte.of_N (Z.to_N (z mod 256))) as [b|] eqn:Hb.
  - apply Byte.to_of_N in Hb. rewrite Hb. lia.
  - apply Byte.of_N_None_iff in Hb. lia.
Qed.

Lemma read_int32_frame_of_counter (c : Z) (payload : list byte) :
  read_int32 (frame_of_counter c payload) = Some (wrap32 c).
Proof.
  unfold frame_of_counter, read_int32. rewrite !u8_byte_of_Z. f_equal.
  set (u := c mod 4294967296).
  assert (Hu : 0 <= u < 4294967296) by (apply Z.mod_pos_bound; lia).
  assert (Hsum : u mod 256 + 256 * ((u / 256) mod 256)
                 + 65536 * ((u / 65536) mod 256)
                 + 16777216 * ((u / 16777216) mod 256) = u).
  { assert (H16 : u / 65536 = u / 256 / 256)
      by (rewrite Z.div_div by lia; reflexivity).
    assert (H24 : u / 16777216 = u / 256 / 256 / 256)
      by (rewrite !Z.div_div by lia; reflexivity).
    rewrite H16, H24.
    pose proof (Z.div_mod u 256 ltac:(lia)).
    pose proof (Z.div_mod (u / 256) 256 ltac:(lia)).
    pose proof (Z.div_mod (u / 256 / 256) 256 ltac:(lia)).
    assert (0 <= u / 256 / 256 / 256 < 256).
    { split; [repeat apply Z.div_pos; lia|].
      rewrite <- H24. apply Z.div_lt_upper_bound; lia. }
    rewrite (Z.mod_small (u / 256 / 256 / 256)) by lia.
    lia. }
  rewrite Hsum. unfold wrap32, u.
  rewrite Z.add_mod_idemp_l by lia. reflexivity.
Qed.

Lemma read_int32_defined (frame : list byte) :
  (4 <= length frame)%nat -> exists c, read_int32 frame = Some c /\ in_int32 c.
Proof.
  intros Hlen.
  destruct frame as [|b0 [|b1 [|b2 [|b3 rest]]]]; simpl in Hlen; try lia.
  eexists. split; [reflexivity | apply wrap32_range].
Qed.

Lemma u8_zero_iff (b : byte) : u8 b = 0 <-> b = x00.
Proof.
  split; [|intros ->; reflexivity].
  unfold u8. intros Hb.
  assert (Hn : Byte.to_N b = Byte.to_N x00) by (simpl; lia).
  apply (f_equal Byte.of_N) in Hn. rewrite !Byte.of_to_N in Hn.
  congruence.
Qed.

(** ** validate_frame *)

Lemma scan_nonzero_all_zero (n : nat) (it : list byte) :
  (n <= length it)%nat ->
  Forall (fun b => b = x00) (take n it) ->
  scan_nonzero n it = Some false.
Proof.
  revert it. induction n as [|n IH]; intros it Hlen Hzero; [reflexivity|].
  destruct it as [|b it']; simpl in Hlen; [lia|].
  simpl in Hzero. apply Forall_cons in Hzero as [-> Hzero].
  simpl. apply IH; [lia | exact Hzero].
Qed.

Lemma scan_nonzero_some_nonzero (n : nat) (it : list byte) :
  Exists (fun b => b <> x00) (take n it) ->
  scan_nonzero n it = Some true.
Proof.
  revert it. induction n as [|n IH]; intros it Hex.
  - rewrite take_0 in Hex. inversion Hex.
  - destruct it as [|b it']; [inversion Hex|].
    simpl in Hex. simpl.
    destruct (u8 b =? 0) eqn:Hb; simpl; [|reflexivity].
    apply Z.eqb_eq, u8_zero_iff in Hb. subst b.
    apply Exists_cons in Hex as [Hne | Hex]; [congruence|].
    apply IH. exact Hex.
Qed.

(** C4. [validate_frame] answers false on every buffer whose image
    region, the first [get_image_size(width, height)] bytes, holds only
    zero bytes, and true on every buffer whose image region holds a
    nonzero byte (one is enough). *)
Theorem validate_frame_zero_region_false_otherwise_true
    (mode : request_mapping) (frame : list byte) :
  let n := N.to_nat (image_size mode) in
  ((n <= length frame)%nat ->
   Forall (fun b => b = x00) (take n frame) ->
   validate_frame mode frame = Some false)
  /\ (Exists (fun b => b <> x00) (take n frame) ->
      validate_frame mode frame = Some true).
Proof.
  intros n. unfold validate_frame. fold n. split.
  - apply scan_nonzero_all_zero.
  - apply scan_nonzero_some_nonzero.
Qed.

Lemma validate_frame_zero_region_false_otherwise_true_witness :
  validate_frame mode_2x2 zero_frame_8 = Some false
  /\ validate_frame mode_2x2 one_nonzero_frame_8 = Some true.
Proof.
  split.
  - apply (validate_frame_zero_region_false_otherwise_true mode_2x2 zero_frame_8).
    + vm_compute. lia.
    + vm_compute. repeat constructor.
  - apply (validate_frame_zero_region_false_otherwise_true
             mode_2x2 one_nonzero_frame_8).
    vm_compute. do 5 apply Exists_cons_tl. apply Exists_cons_hd. discriminate.
Defined.

(** C10. When the mapping reports a decoded image size of zero bytes the
    scan is empty and [validate_frame] answers false, whatever the frame
    holds. *)
Theorem validate_frame_zero_size_false
    (mode : request_mapping) (frame : list byte) :
  image_size mode = 0%N -> validate_frame mode frame = Some false.
Proof.
  intros Hsize. unfold validate_frame. rewrite Hsize. reflexivity.
Qed.

Lemma validate_frame_zero_size_false_witness :
  validate_frame mode_0x0 one_nonzero_frame_8 = Some false.
Proof.
  apply (validate_frame_zero_size_false mode_0x0 one_nonzero_frame_8).
  reflexivity.
Defined.

(** In the delivery path a zero-size frame is therefore dropped and the
    reader is left untouched. *)
Lemma on_frame_zero_size_dropped (r : rolling_timestamp_reader)
    (mode : request_mapping) (frame : list byte) :
  image_size mode = 0%N -> on_frame r mode frame = Some (None, r).
Proof.
  intros Hsize. unfold on_frame, validate_frame. rewrite Hsize. reflexivity.
Qed.

Example validate_frame_empty_buffer : validate_frame mode_0x0 [] = Some false.
Proof. reflexivity. Qed.

(** The scan stops at the first nonzero byte, so a short buffer is enough
    when it holds one; an all-zero buffer shorter than the image region is
    read past its end. *)
Example validate_frame_short_nonzero :
  validate_frame mode_2x2 [x00; x01] = Some true.
Proof. reflexivity. Qed.

Example validate_frame_short_zero :
  validate_frame mode_2x2 [x00; x00] = None.
Proof. reflexivity. Qed.

(** ** get_frame_timestamp *)

Lemma get_frame_timestamp_started (r : rolling_timestamp_reader)
    (mode : request_mapping) (frame : list byte) (cur : Z) :
  started r = true ->
  read_int32 frame = Some cur ->
  get_frame_timestamp r mode frame =
    Some (wrap32 (Z.quot (wrap64 (total r + wrap32 (cur - last_timestamp r)))
                         100000),
          {| started := true;
             total := wrap64 (total r + wrap32 (cur - last_timestamp r));
             last_timestamp := cur;
             counter := counter r |}).
Proof.
  intros Hstarted Hread. destruct r as [s T l k].
  cbn [started] in Hstarted. subst s.
  unfold get_frame_timestamp. rewrite Hread. reflexivity.
Qed.

Lemma get_frame_timestamp_first (r : rolling_timestamp_reader)
    (mode : request_mapping) (frame : list byte) (cur : Z) :
  started r = false ->
  read_int32 frame = Some cur ->
  get_frame_timestamp r mode frame =
    Some (wrap32 (Z.quot (wrap64 (total r)) 100000),
          {| started := true; total := wrap64 (total r);
             last_timestamp := cur; counter := counter r |}).
Proof.
  intros Hstarted Hread. destruct r as [s T l k].
  cbn [started] in Hstarted. subst s.
  unfold get_frame_timestamp. rewrite Hread.
  cbn [negb started total last_timestamp counter].
  replace (wrap32 (cur - cur)) with 0
    by (rewrite Z.sub_diag; reflexivity).
  rewrite Z.add_0_r. reflexivity.
Qed.

(** What a fresh reader does with its first frame does not depend on the
    indeterminate content of [last_timestamp]. *)
Lemma reader_run_fresh_timestamp (g : Z) (mode : request_mapping)
    (frame : list byte) (cs : list reader_call) :
  reader_run (rolling_timestamp_reader_new g)
             (call_get_frame_timestamp mode frame :: cs) =
  reader_run (rolling_timestamp_reader_new 0)
             (call_get_frame_timestamp mode frame :: cs).
Proof.
  simpl. unfold get_frame_timestamp.
  destruct (read_int32 frame); reflexivity.
Qed.

(** C1, as amended.  On a call after the first the delta is the
    difference of the current and the last counter reading with 32-bit
    signed wrap-around, the 64-bit total grows by it, the current reading
    becomes [last_timestamp], and the result is the quotient of the total
    by 100000 narrowed to a 32-bit signed integer, which is that quotient
    whenever it fits in 32 bits.  On the counters
    [100, 150, 2^31-10, -2^31+5] the results are [0, 0, 21474, 21474], a
    non-decreasing sequence: the delta across the rollover is 15. *)
Theorem get_frame_timestamp_accumulates_wrapped_delta :
  (forall (r : rolling_timestamp_reader) (mode : request_mapping)
          (frame : list byte) (cur : Z),
      started r = true ->
      read_int32 frame = Some cur ->
      let delta := wrap32 (cur - last_timestamp r) in
      let total' := wrap64 (total r + delta) in
      get_frame_timestamp r mode frame =
        Some (wrap32 (Z.quot total' 100000),
              {| started := true; total := total';
                 last_timestamp := cur; counter := counter r |})
      /\ (in_int64 (total r + delta) -> total' = total r + delta)
      /\ (in_int32 (Z.quot total' 100000) ->
          wrap32 (Z.quot total' 100000) = Z.quot total' 100000))
  /\ (forall (g : Z) (mode : request_mapping),
        exists (xs3 xs : list reader_result)
               (r3 r' : rolling_timestamp_reader),
          reader_run (rolling_timestamp_reader_new g)
                     (timestamp_calls mode (take 3 rollover_counters))
            = Some (xs3, r3)
          /\ reader_run (rolling_timestamp_reader_new g)
                        (timestamp_calls mode rollover_counters)
             = Some (xs, r')
          /\ timestamp_results xs = [0; 0; 21474; 21474]
          /\ non_decreasing (timestamp_results xs) = true
          /\ total r' - total r3 = 15
          /\ total r' = 2147483553).
Proof.
  split.
  - intros r mode frame cur Hstarted Hread delta total'. repeat split.
    + apply get_frame_timestamp_started; assumption.
    + apply wrap64_id.
    + apply wrap32_id.
  - intros g mode.
    pose proof (reader_run_fresh_timestamp g mode (frame_of_counter 100 [])
                  (timestamp_calls mode [150; 2147483648 - 10])) as Hrun3.
    pose proof (reader_run_fresh_timestamp g mode (frame_of_counter 100 [])
                  (timestamp_calls mode
                     [150; 2147483648 - 10; - 2147483648 + 5])) as Hrun.
    eexists _, _, _, _. split; [|split].
    + etrans; [exact Hrun3|]. vm_compute. reflexivity.
    + etrans; [exact Hrun|]. vm_compute. reflexivity.
    + repeat split; reflexivity.
Qed.

Lemma get_frame_timestamp_accumulates_wrapped_delta_witness :
  get_frame_timestamp
    {| started := true; total := 2147483538;
       last_timestamp := 2147483638; counter := 2 |}
    mode_2x2 (frame_of_counter (- 2147483643) [])
  = Some (21474,
          {| started := true; total := 2147483553;
             last_timestamp := - 2147483643; counter := 2 |}).
Proof.
  destruct get_frame_timestamp_accumulates_wrapped_delta as [Hstep _].
  destruct (Hstep
              {| started := true; total := 2147483538;
                 last_timestamp := 2147483638; counter := 2 |}
              mode_2x2 (frame_of_counter (- 2147483643) []) (- 2147483643)
              eq_refl eq_refl) as [Hcall _].
  exact Hcall.
Defined.

(** A run in which every frame advances the counter by [2^31 - 1]: each
    delta is [2^31 - 1] and the total grows by that much per frame. *)
Lemma reader_run_counters_from (mode : request_mapping) (n : nat) :
  forall (T c k : Z),
    in_int32 c ->
    0 <= T ->
    T + Z.of_nat n * 2147483647 < 9223372036854775808 ->
    snd <$> reader_run
              {| started := true; total := T;
                 last_timestamp := c; counter := k |}
              (timestamp_calls mode
                 (counters_from (wrap32 (c + 2147483647)) 2147483647 n))
    = Some {| started := true;
              total := T + Z.of_nat n * 2147483647;
              last_timestamp := wrap32 (c + Z.of_nat n * 2147483647);
              counter := k |}.
Proof.
  induction n as [|n IH]; intros T c k Hc HT Hbound.
  - simpl. rewrite !Z.add_0_r, (wrap32_id c Hc). reflexivity.
  - cbn [counters_from timestamp_calls map reader_run reader_step].
    fold (timestamp_calls mode).
    rewrite (get_frame_timestamp_started _ mode _ (wrap32 (c + 2147483647)))
      by (try reflexivity;
          rewrite read_int32_frame_of_counter;
          f_equal; apply wrap32_id, wrap32_range).
    cbn [total last_timestamp counter].
    rewrite wrap32_sub_wrap32_l.
    replace (c + 2147483647 - c) with 2147483647 by lia.
    change (wrap32 2147483647) with 2147483647.
    rewrite wrap64_id by (unfold in_int64; lia).
    specialize (IH (T + 2147483647) (wrap32 (c + 2147483647)) k
                  (wrap32_range _) ltac:(lia) ltac:(lia)).
    destruct (reader_run _ _) as [[xs r']|]; [|discriminate IH].
    cbn [fmap option_fmap option_map snd] in IH |- *.
    rewrite IH. f_equal. f_equal; [lia|].
    replace (wrap32 (c + 2147483647) + Z.of_nat n * 2147483647)
      with (wrap32 (c + 2147483647) - (- (Z.of_nat n * 2147483647))) by lia.
    rewrite wrap32_sub_wrap32_l. f_equal. lia.
Qed.

Lemma reader_run_fast_counters (mode : request_mapping) (n : nat) :
  Z.of_nat n * 2147483647 < 9223372036854775808 ->
  snd <$> reader_run (rolling_timestamp_reader_new 0)
            (timestamp_calls mode (fast_counters (S n)))
  = Some {| started := true;
            total := Z.of_nat n * 2147483647;
            last_timestamp := wrap32 (Z.of_nat n * 2147483647);
            counter := 0 |}.
Proof.
  intros Hbound. unfold fast_counters.
  cbn [counters_from timestamp_calls map reader_run reader_step].
  fold (timestamp_calls mode).
  rewrite (get_frame_timestamp_first _ mode _ 0)
    by (try reflexivity; rewrite read_int32_frame_of_counter; reflexivity).
  cbn [total counter rolling_timestamp_reader_new].
  change (wrap64 0) with 0.
  pose proof (reader_run_counters_from mode n 0 0 0
                ltac:(unfold in_int32; lia) ltac:(lia) ltac:(lia)) as Hrun.
  change (0 + 2147483647) with 2147483647 in Hrun.
  destruct (reader_run _ _) as [[xs r']|]; [|discriminate Hrun].
  cbn [fmap option_fmap option_map snd] in Hrun |- *.
  rewrite Hrun. rewrite !Z.add_0_l. reflexivity.
Qed.

(** C1, the claim as stated fails.  After 100001 frames whose counters
    advance by [2^31 - 1] each, the reader holds a total of
    214748364700000; the next frame brings the total to 214750512183647,
    whose quotient by 100000 is 2147505121, and the call returns
    -2147462175. *)
Lemma get_frame_timestamp_differs_from_quotient :
  snd <$> reader_run (rolling_timestamp_reader_new 0)
            (timestamp_calls mode_2x2 (fast_counters (Z.to_nat 100001)))
    = Some reader_after_fast_run
  /\ get_frame_timestamp reader_after_fast_run mode_2x2
       (frame_of_counter 2147383647 [])
     = Some (- 2147462175, reader_past_int_range)
  /\ Z.quot (total reader_past_int_range) 100000 = 2147505121
  /\ - 2147462175 <> Z.quot (total reader_past_int_range) 100000.
Proof.
  split; [|split; [|split]].
  - replace (Z.to_nat 100001) with (S (Z.to_nat 100000)) by lia.
    rewrite reader_run_fast_counters by lia.
    rewrite Z2Nat.id by lia. reflexivity.
  - vm_compute. reflexivity.
  - vm_compute. reflexivity.
  - vm_compute. discriminate.
Qed.

(** C8. Every result of [get_frame_timestamp] is the quotient of the new
    64-bit total by 100000, rounded toward zero ([Z.quot]) and narrowed to
    a 32-bit signed integer, so it is a whole number in the [int] range;
    the first call on a fresh reader returns 0 whatever counter the frame
    carries. *)
Theorem get_frame_timestamp_is_narrowed_quotient
    (r : rolling_timestamp_reader) (mode : request_mapping)
    (frame : list byte) (g : Z) :
  (4 <= length frame)%nat ->
  (exists (t : Z) (r' : rolling_timestamp_reader),
      get_frame_timestamp r mode frame = Some (t, r')
      /\ t = wrap32 (Z.quot (total r') 100000)
      /\ in_int32 t)
  /\ (exists cur : Z,
        read_int32 frame = Some cur
        /\ get_frame_timestamp (rolling_timestamp_reader_new g) mode frame
           = Some (0, {| started := true; total := 0;
                         last_timestamp := cur; counter := 0 |})).
Proof.
  intros Hlen.
  destruct (read_int32_defined frame Hlen) as (cur & Hread & _).
  split.
  - unfold get_frame_timestamp. rewrite Hread.
    eexists _, _. split; [reflexivity|].
    split; [reflexivity | apply wrap32_range].
  - exists cur. split; [exact Hread|].
    rewrite (get_frame_timestamp_first _ mode frame cur) by
      (try reflexivity; exact Hread).
    reflexivity.
Qed.

Lemma get_frame_timestamp_is_narrowed_quotient_witness :
  exists cur : Z,
    read_int32 (frame_of_counter 123456789 []) = Some cur
    /\ get_frame_timestamp (rolling_timestamp_reader_new 42) mode_2x2
         (frame_of_counter 123456789 [])
       = Some (0, {| started := true; total := 0;
                     last_timestamp := cur; counter := 0 |}).
Proof.
  apply (get_frame_timestamp_is_narrowed_quotient
           reader_after_fast_run mode_2x2
           (frame_of_counter 123456789 []) 42).
  simpl. lia.
Defined.

(** The quotient is rounded toward zero: a total of -150000 gives -1. *)
Example get_frame_timestamp_negative_total :
  timestamp_results
    <$> (fst <$> reader_run (rolling_timestamp_reader_new 0)
                   (timestamp_calls mode_2x2 [0; - 150000]))
  = Some [0; - 1].
Proof. vm_compute. reflexivity. Qed.

(** ** get_frame_counter *)

Lemma reader_step_validate_unchanged (r r' : rolling_timestamp_reader)
    (mode : request_mapping) (frame : list byte) (x : reader_result) :
  reader_step r (call_validate_frame mode frame) = Some (x, r') -> r' = r.
Proof.
  simpl. destruct (validate_frame mode frame); congruence.
Qed.

Lemma reader_step_timestamp_counter (r r' : rolling_timestamp_reader)
    (mode : request_mapping) (frame : list byte) (x : reader_result) :
  reader_step r (call_get_frame_timestamp mode frame) = Some (x, r') ->
  counter r' = counter r.
Proof.
  simpl. unfold get_frame_timestamp.
  destruct (read_int32 frame); [|discriminate].
  intros [= _ <-]. destruct (started r); reflexivity.
Qed.

Lemma reader_step_defined (r : rolling_timestamp_reader) (c : reader_call) :
  call_defined c = true -> is_Some (reader_step r c).
Proof.
  destruct c as [mode frame | mode frame | mode frame];
    cbn [call_defined reader_step]; intros Hdef.
  - destruct (validate_frame mode frame); [eauto | discriminate].
  - apply Nat.leb_le in Hdef.
    destruct (read_int32_defined frame Hdef) as (cur & Hread & _).
    unfold get_frame_timestamp. rewrite Hread. eauto.
  - unfold get_frame_counter. eauto.
Qed.

(** From any reader whose counter is [k], the counter calls of a run
    return [k+1, k+2, ...], whatever is called in between. *)
Lemma reader_run_counts_from (cs : list reader_call) :
  forall r : rolling_timestamp_reader,
    forallb call_defined cs = true ->
    0 <= counter r ->
    counter r + Z.of_nat (length (List.filter is_counter_call cs))
      < 9223372036854775808 ->
    exists (xs : list reader_result) (r' : rolling_timestamp_reader),
      reader_run r cs = Some (xs, r')
      /\ counter_results xs =
           map (fun i => counter r + Z.of_nat i)
               (seq 1 (length (List.filter is_counter_call cs))).
Proof.
  induction cs as [|c cs IH]; intros r Hdef Hpos Hbound.
  - exists [], r. split; reflexivity.
  - cbn [forallb] in Hdef. apply andb_true_iff in Hdef as [Hc Hcs].
    destruct (reader_step_defined r c Hc) as [[x r1] Hstep].
    cbn [reader_run]. rewrite Hstep.
    destruct c as [mode frame | mode frame | mode frame];
      cbn [List.filter is_counter_call length] in Hbound |- *.
    + apply reader_step_validate_unchanged in Hstep as Hr. subst r1.
      destruct (IH r Hcs Hpos Hbound) as (xs & r' & Hrun & Hres).
      rewrite Hrun. exists (x :: xs), r'. split; [reflexivity|].
      simpl in Hstep. destruct (validate_frame mode frame);
        [|discriminate]. simplify_eq. exact Hres.
    + apply reader_step_timestamp_counter in Hstep as Hk.
      destruct (IH r1 Hcs ltac:(lia) ltac:(lia)) as (xs & r' & Hrun & Hres).
      rewrite Hrun. exists (x :: xs), r'. split; [reflexivity|].
      simpl in Hstep. destruct (get_frame_timestamp r mode frame) as [[t r2]|];
        [|discriminate]. simplify_eq.
      cbn [counter_results]. rewrite Hres, Hk. reflexivity.
    + cbn [reader_step] in Hstep. unfold get_frame_counter in Hstep.
      simplify_eq.
      assert (Hwrap : wrap64 (counter r + 1) = counter r + 1)
        by (apply wrap64_id; unfold in_int64; lia).
      rewrite Hwrap in *.
      destruct (IH {| started := started r; total := total r;
                      last_timestamp := last_timestamp r;
                      counter := counter r + 1 |} Hcs
                  ltac:(simpl; lia) ltac:(simpl; lia))
        as (xs & r' & Hrun & Hres).
      rewrite Hrun. eexists _, r'. split; [reflexivity|].
      cbn [counter_results seq map]. f_equal.
      * rewrite to_uint64_id by lia. lia.
      * rewrite Hres. cbn [counter]. rewrite <- (seq_shift _ 1), map_map.
        apply map_ext. intros i. lia.
Qed.

(** C5. On a fresh reader the N-th call of [get_frame_counter] returns N:
    the results are 1, 2, 3, ... in call order, whatever frames and
    mappings are passed and whatever calls of [validate_frame] and
    [get_frame_timestamp], with whatever outcome, come in between.  The
    run is one the 64-bit counter can count: fewer than [2^63] counter
    calls, every call reading inside its frame. *)
Theorem get_frame_counter_nth_call_returns_n
    (g : Z) (cs : list reader_call) :
  let n := length (List.filter is_counter_call cs) in
  forallb call_defined cs = true ->
  Z.of_nat n < 9223372036854775808 ->
  exists (xs : list reader_result) (r' : rolling_timestamp_reader),
    reader_run (rolling_timestamp_reader_new g) cs = Some (xs, r')
    /\ counter_results xs = map Z.of_nat (seq 1 n).
Proof.
  intros n Hdef Hbound.
  destruct (reader_run_counts_from cs (rolling_timestamp_reader_new g)
              Hdef ltac:(simpl; lia) ltac:(simpl; fold n; lia))
    as (xs & r' & Hrun & Hres).
  exists xs, r'. split; [exact Hrun|].
  rewrite Hres. fold n. apply map_ext. intros i. simpl. lia.
Qed.

Lemma get_frame_counter_nth_call_returns_n_witness :
  exists (xs : list reader_result) (r' : rolling_timestamp_reader),
    reader_run (rolling_timestamp_reader_new 5) interleaved_calls
      = Some (xs, r')
    /\ counter_results xs = [1; 2; 3].
Proof.
  apply (get_frame_counter_nth_call_returns_n 5 interleaved_calls).
  - vm_compute. reflexivity.
  - vm_compute. reflexivity.
Defined.

Example interleaved_calls_results :
  fst <$> reader_run (rolling_timestamp_reader_new 5) interleaved_calls
  = Some [ret_counter 1; ret_valid false; ret_counter 2; ret_timestamp 0;
          ret_valid true; ret_timestamp 0; ret_counter 3].
Proof. vm_compute. reflexivity. Qed.

(** ** endpoint: stream profiles *)

Lemma get_stream_profiles_cached {D : Type} `{endpoint_kind D}
    (e : endpoint) (d : D) (v : list stream_profile) :
  lazy_cached (_stream_profiles e) = Some v ->
  get_stream_profiles e d = (v, e, d).
Proof.
  intros Hcached. unfold get_stream_profiles, lazy_deref.
  rewrite Hcached. destruct e; reflexivity.
Qed.

Lemma get_stream_profiles_times_cached {D : Type} `{endpoint_kind D}
    (n : nat) (e : endpoint) (d : D) (v : list stream_profile) :
  lazy_cached (_stream_profiles e) = Some v ->
  get_stream_profiles_times n e d = (repeat v n, e, d).
Proof.
  intros Hcached. induction n as [|n IH]; [reflexivity|].
  cbn [get_stream_profiles_times repeat].
  rewrite (get_stream_profiles_cached e d v Hcached), IH. reflexivity.
Qed.

Lemma get_stream_profiles_first {D : Type} `{endpoint_kind D}
    (e : endpoint) (d : D) :
  lazy_cached (_stream_profiles e) = None ->
  exists e' : endpoint,
    get_stream_profiles e d =
      (fst (init_stream_profiles d), e', snd (init_stream_profiles d))
    /\ lazy_cached (_stream_profiles e') = Some (fst (init_stream_profiles d)).
Proof.
  intros Hnone. unfold get_stream_profiles, lazy_deref. rewrite Hnone.
  destruct (init_stream_profiles d) as [v d']. eexists. split; reflexivity.
Qed.

(** C6. On an endpoint whose profiles have not been asked for yet, any
    number of calls of [get_stream_profiles] runs the subclass's
    [init_stream_profiles] once, in the first call: every call returns the
    list enumerated then, the device is left as that one enumeration left
    it, and an enumeration that counts its invocations has counted one. *)
Theorem get_stream_profiles_enumerates_once {D : Type} `{endpoint_kind D}
    (e : endpoint) (d : D) (n k : nat) :
  lazy_cached (_stream_profiles e) = None ->
  (exists e' : endpoint,
      get_stream_profiles_times (S n) e d =
        (repeat (fst (init_stream_profiles d)) (S n), e',
         snd (init_stream_profiles d))
      /\ lazy_cached (_stream_profiles e')
         = Some (fst (init_stream_profiles d)))
  /\ snd (snd (get_stream_profiles_times (S n) e (d, k))) = S k.
Proof.
  intros Hnone. split.
  - destruct (get_stream_profiles_first e d Hnone) as (e' & Hfirst & Hcached).
    exists e'. cbn [get_stream_profiles_times repeat].
    rewrite Hfirst, (get_stream_profiles_times_cached n e' _ _ Hcached).
    split; [reflexivity | exact Hcached].
  - destruct (get_stream_profiles_first e (d, k) Hnone)
      as (e' & Hfirst & Hcached).
    cbn [get_stream_profiles_times].
    rewrite Hfirst, (get_stream_profiles_times_cached n e' _ _ Hcached).
    cbn [snd init_stream_profiles counting_kind fst].
    destruct (init_stream_profiles d); reflexivity.
Qed.

Lemma get_stream_profiles_enumerates_once_witness :
  (exists e' : endpoint,
      get_stream_profiles_times 3 (endpoint_new sample_archive) 0%nat =
        (repeat [vga_profile 0] 3, e', 1%nat)
      /\ lazy_cached (_stream_profiles e') = Some [vga_profile 0])
  /\ snd (snd (get_stream_profiles_times 3 (endpoint_new sample_archive)
                 (0%nat, 0%nat))) = 1%nat.
Proof.
  exact (get_stream_profiles_enumerates_once
           (endpoint_new sample_archive) 0%nat 2 0 eq_refl).
Defined.

(** The enumeration of [growing_kind] gives a different list every time it
    runs; the endpoint keeps returning the first one. *)
Example get_stream_profiles_growing :
  fst (fst (get_stream_profiles_times 3 (endpoint_new sample_archive) 5%nat))
  = [[vga_profile 5]; [vga_profile 5]; [vga_profile 5]]
  /\ fst (init_stream_profiles 6%nat) = [vga_profile 6].
Proof. split; reflexivity. Qed.

(** ** endpoint: alloc_frame *)

Lemma alloc_frames_fresh (n : nat) :
  forall (e : endpoint) (size : N) (ad : frame_additional_data),
    (n <= free_buffers (_archive e))%nat ->
    Z.of_nat (length (published_frames (_archive e))) + Z.of_nat n
      <= _max_publish_list_size e ->
    exists e' : endpoint,
      alloc_frames n e size ad =
        inr (repeat (Some {| frame_size := size; additional_data := ad |}) n,
             e')
      /\ free_buffers (_archive e') = (free_buffers (_archive e) - n)%nat
      /\ length (published_frames (_archive e')) =
           (length (published_frames (_archive e)) + n)%nat
      /\ _max_publish_list_size e' = _max_publish_list_size e.
Proof.
  induction n as [|n IH]; intros e size ad Hfree Hmax.
  - exists e. cbn [alloc_frames repeat].
    repeat split; [lia | lia].
  - cbn [alloc_frames repeat]. unfold alloc_frame.
    destruct (Nat.eqb_spec (free_buffers (_archive e)) 0) as [Hz|Hnz]; [lia|].
    destruct (Z.leb_spec (_max_publish_list_size e)
                (Z.of_nat (length (published_frames (_archive e)))))
      as [Hle|Hgt]; [lia|].
    set (f := {| frame_size := size; additional_data := ad |}).
    set (e1 := with_archive e _).
    destruct (IH e1 size ad) as (e' & Hrun & Hfree' & Hlen' & Hmax').
    { subst e1. cbn [with_archive _archive free_buffers]. lia. }
    { subst e1.
      cbn [with_archive _archive published_frames _max_publish_list_size].
      rewrite length_app. cbn [length]. lia. }
    exists e'. fold f in Hrun. rewrite Hrun.
    subst e1.
    cbn [with_archive _archive free_buffers published_frames
           _max_publish_list_size] in Hfree', Hlen', Hmax'.
    rewrite length_app in Hlen'. cbn [length] in Hlen'.
    repeat split; [lia | lia | exact Hmax'].
Qed.

(** C7. Under backpressure, that is when the pool has no buffer left or
    [_max_publish_list_size] frames are already published and unreleased,
    [alloc_frame] returns the null frame as a normal result and leaves the
    endpoint as it was; a newly constructed endpoint has the limit 16, so
    that its first 16 allocations succeed and the 17th returns null. *)
Theorem alloc_frame_null_under_backpressure :
  (forall (e : endpoint) (size : N) (ad : frame_additional_data),
      free_buffers (_archive e) = 0%nat
      \/ _max_publish_list_size e
           <= Z.of_nat (length (published_frames (_archive e))) ->
      alloc_frame e size ad = inr (None, e))
  /\ (forall archive : frame_archive,
        _max_publish_list_size (endpoint_new archive) = 16)
  /\ (forall (pool : nat) (size : N) (ad : frame_additional_data),
        (16 <= pool)%nat ->
        exists e' : endpoint,
          alloc_frames 17
            (endpoint_new {| free_buffers := pool; published_frames := [] |})
            size ad
          = inr (repeat (Some {| frame_size := size; additional_data := ad |})
                        16 ++ [None], e')).
Proof.
  split; [|split].
  - intros e size ad Hpressure. unfold alloc_frame.
    destruct (Nat.eqb_spec (free_buffers (_archive e)) 0) as [Hz|Hnz];
      [reflexivity|].
    destruct (Z.leb_spec (_max_publish_list_size e)
                (Z.of_nat (length (published_frames (_archive e)))))
      as [Hle|Hgt]; [reflexivity|].
    destruct Hpressure; [contradiction | lia].
  - reflexivity.
  - intros pool size ad Hpool.
    set (e := endpoint_new _).
    destruct (alloc_frames_fresh 16 e size ad) as (e' & Hrun & _ & Hlen & Hmax).
    { subst e. cbn [endpoint_new _archive free_buffers]. exact Hpool. }
    { subst e. simpl. lia. }
    exists e'.
    change 17%nat with (16 + 1)%nat.
    assert (Hsplit : forall n m e0,
               alloc_frames (n + m) e0 size ad =
               match alloc_frames n e0 size ad with
               | inl err => inl err
               | inr (fs, e1) =>
                   match alloc_frames m e1 size ad with
                   | inl err => inl err
                   | inr (gs, e2) => inr (fs ++ gs, e2)
                   end
               end).
    { induction n as [|n IHn]; intros m e0.
      - cbn [Nat.add alloc_frames].
        destruct (alloc_frames m e0 size ad) as [err|[gs e2]]; reflexivity.
      - cbn [Nat.add alloc_frames].
        destruct (alloc_frame e0 size ad) as [err|[f e1]]; [reflexivity|].
        rewrite IHn.
        destruct (alloc_frames n e1 size ad) as [err|[fs e2]]; [reflexivity|].
        destruct (alloc_frames m e2 size ad) as [err|[gs e3]]; reflexivity. }
    rewrite Hsplit, Hrun. cbn [alloc_frames]. unfold alloc_frame.
    destruct (Nat.eqb_spec (free_buffers (_archive e')) 0) as [Hz|Hnz];
      [reflexivity|].
    destruct (Z.leb_spec (_max_publish_list_size e')
                (Z.of_nat (length (published_frames (_archive e')))))
      as [Hle|Hgt]; [reflexivity|].
    exfalso. subst e. simpl in Hlen, Hmax. lia.
Qed.

Lemma alloc_frame_null_under_backpressure_witness :
  alloc_frame (endpoint_new {| free_buffers := 0; published_frames := [] |})
    8 {| frame_timestamp := 3; frame_number := 1 |}
  = inr (None,
         endpoint_new {| free_buffers := 0; published_frames := [] |}).
Proof.
  destruct alloc_frame_null_under_backpressure as [Hnull _].
  apply Hnull. left. reflexivity.
Defined.

(** ** hid_endpoint *)

Lemma push_back_all_app (src dst : list hid_sensor) :
  push_back_all dst src = dst ++ src.
Proof.
  revert dst. induction src as [|elem src IH]; intros dst.
  - simpl. rewrite app_nil_r. reflexivity.
  - simpl. rewrite IH, <- app_assoc. reflexivity.
Qed.

(** C9. The constructor of [hid_endpoint] works on the device before it
    returns: it opens the device, stores a copy of the sensor list the
    open device reports, and closes the device.  On a device that records
    its calls the calls are open, get_sensors, close, in this order, the
    device ends up closed, and the stored list stays the one of
    construction time when the device later reports another list. *)
Theorem hid_endpoint_new_snapshots_sensors :
  (forall (H : Type) (ops : hid_device H) (archive : frame_archive) (dev : H),
      _hid_sensors (fst (hid_endpoint_new archive dev))
        = fst (hid_get_sensors (hid_open dev))
      /\ snd (hid_endpoint_new archive dev)
         = hid_close (snd (hid_get_sensors (hid_open dev))))
  /\ (forall (archive : frame_archive) (dev : recording_hid)
             (later : list hid_sensor),
        let made := hid_endpoint_new archive dev in
        rec_calls (snd made)
          = rec_calls dev ++ [hid_call_open; hid_call_get_sensors;
                              hid_call_close]
        /\ rec_opened (snd made) = false
        /\ _hid_sensors (fst made) = rec_sensors dev
        /\ fst (hid_get_sensors (hid_open (replace_sensors (snd made) later)))
           = later).
Proof.
  split.
  - intros H ops archive dev. unfold hid_endpoint_new.
    destruct (hid_get_sensors (hid_open dev)) as [sensors dev2].
    cbn [fst snd _hid_sensors]. rewrite push_back_all_app.
    split; reflexivity.
  - intros archive dev later made. subst made. unfold hid_endpoint_new.
    cbn [hid_open hid_get_sensors hid_close recording_hid_device
           fst snd rec_calls rec_opened rec_sensors _hid_sensors].
    rewrite push_back_all_app, <- !app_assoc.
    repeat split.
Qed.

Example hid_endpoint_new_two_sensors :
  let dev := {| rec_opened := false;
                rec_sensors := [gyro_sensor; accel_sensor];
                rec_calls := [] |} in
  let made := hid_endpoint_new sample_archive dev in
  _hid_sensors (fst made) = [gyro_sensor; accel_sensor]
  /\ rec_calls (snd made)
     = [hid_call_open; hid_call_get_sensors; hid_call_close]
  /\ _max_publish_list_size (hid_base (fst made)) = 16.
Proof. repeat split. Qed.

(** ** The power token *)

Lemma power_new_alive
    (acquire : uvc_endpoint -> list power_event ->
               result (uvc_endpoint * list power_event))
    (a : nat) (h : heap) (e : uvc_endpoint) :
  lock a h = Some e ->
  power_new acquire a h =
    match acquire e (device_log h) with
    | inl err => inl err
    | inr (e', log') =>
        inr ({| _owner := a |},
             {| endpoints := <[a := e']> (endpoints h); device_log := log' |})
    end.
Proof. intros Hlock. unfold power_new. rewrite Hlock. reflexivity. Qed.

Lemma power_delete_alive
    (release : uvc_endpoint -> list power_event ->
               uvc_endpoint * list power_event)
    (p : power) (h : heap) (e : uvc_endpoint) :
  lock (_owner p) h = Some e ->
  power_delete release p h =
    {| endpoints := <[_owner p := fst (release e (device_log h))]> (endpoints h);
       device_log := snd (release e (device_log h)) |}.
Proof.
  intros Hlock. unfold power_delete. rewrite Hlock.
  destruct (release e (device_log h)); reflexivity.
Qed.

Lemma power_delete_expired
    (release : uvc_endpoint -> list power_event ->
               uvc_endpoint * list power_event)
    (p : power) (h : heap) :
  lock (_owner p) h = None -> power_delete release p h = h.
Proof. intros Hlock. unfold power_delete. rewrite Hlock. reflexivity. Qed.

Lemma lock_expire_owner (a : nat) (h : heap) : lock a (expire_owner a h) = None.
Proof. unfold lock, expire_owner. simpl. apply lookup_delete_eq. Qed.

(** C3, as amended.  The token holds a weak reference.  When its owner is
    gone by the time the token is destroyed, the destructor does nothing:
    whatever [release_power] does, it is not called, the device log and
    the heap stay as they are.  The release happens when the owner is
    still alive. *)
Theorem power_delete_releases_only_live_owner
    (release : uvc_endpoint -> list power_event ->
               uvc_endpoint * list power_event)
    (p : power) (h : heap) :
  (lock (_owner p) h = None ->
   power_delete release p h = h
   /\ device_log (power_delete release p h) = device_log h)
  /\ (forall e : uvc_endpoint,
        lock (_owner p) h = Some e ->
        device_log (power_delete release p h)
          = snd (release e (device_log h))
        /\ lock (_owner p) (power_delete release p h)
           = Some (fst (release e (device_log h))))
  /\ power_delete release p (expire_owner (_owner p) h)
     = expire_owner (_owner p) h.
Proof.
  split; [|split].
  - intros Hlock. rewrite (power_delete_expired release p h Hlock).
    split; reflexivity.
  - intros e Hlock. rewrite (power_delete_alive release p h e Hlock).
    split; [reflexivity|]. unfold lock. simpl. apply lookup_insert_eq.
  - apply power_delete_expired, lock_expire_owner.
Qed.

Lemma power_delete_releases_only_live_owner_witness :
  power_delete release_power {| _owner := 0 |}
    (expire_owner 0 one_endpoint_heap)
  = expire_owner 0 one_endpoint_heap.
Proof.
  destruct (power_delete_releases_only_live_owner release_power
              {| _owner := 0 |} (expire_owner 0 one_endpoint_heap))
    as [Hgone _].
  apply Hgone. apply lock_expire_owner.
Defined.

(** C3, the claim as stated fails.  A token is constructed on the live
    endpoint at address 0, which powers device 7 on; the endpoint goes
    away while the token is held; destroying the token then changes
    nothing: the log still ends with the power-on and holds no
    power-off. *)
Lemma power_delete_after_owner_gone_leaves_device_on :
  exists (tok : power) (h1 : heap),
    power_new (acquire_power true) 0 one_endpoint_heap = inr (tok, h1)
    /\ device_log h1 = [device_power_on 7]
    /\ user_count_at 0 h1 = Some 1
    /\ power_delete release_power tok (expire_owner 0 h1) = expire_owner 0 h1
    /\ device_log (power_delete release_power tok (expire_owner 0 h1))
       = [device_power_on 7]
    /\ ~ In (device_power_off 7)
          (device_log (power_delete release_power tok (expire_owner 0 h1))).
Proof.
  eexists _, _. split; [reflexivity|].
  split; [reflexivity|].
  split; [vm_compute; reflexivity|].
  assert (Hsame : forall h, power_delete release_power {| _owner := 0 |}
                              (expire_owner 0 h) = expire_owner 0 h).
  { intros h. apply power_delete_expired, lock_expire_owner. }
  rewrite Hsame. split; [reflexivity|]. split; [reflexivity|].
  simpl. intros [Hin | []]. discriminate Hin.
Qed.

(** With the owner alive the same destruction powers the device off. *)
Example power_delete_owner_alive_powers_off :
  match power_new (acquire_power true) 0 one_endpoint_heap with
  | inr (tok, h1) =>
      device_log (power_delete release_power tok h1)
  | inl _ => []
  end = [device_power_on 7; device_power_off 7].
Proof. vm_compute. reflexivity. Qed.

(** ** Sequences of token constructions and destructions *)

Lemma transition_events_acquire (dev : nat) (c : Z) :
  transition_events dev c (c + 1) =
  if c =? 0 then [device_power_on dev] else [].
Proof.
  unfold transition_events.
  destruct (Z.eqb_spec c 0) as [->|Hc]; [reflexivity|].
  destruct (Z.eqb_spec c 1) as [->|Hc1]; [reflexivity|].
  reflexivity.
Qed.

Lemma transition_events_release (dev : nat) (c : Z) :
  transition_events dev c (c - 1) =
  if c - 1 =? 0 then [device_power_off dev] else [].
Proof.
  unfold transition_events.
  destruct (Z.eqb_spec c 0) as [->|Hc]; [reflexivity|].
  destruct (Z.eqb_spec c 1) as [->|Hc1]; [reflexivity|].
  cbn [andb]. destruct (Z.eqb_spec (c - 1) 0); [lia | reflexivity].
Qed.

Lemma transition_events_same (dev : nat) (c : Z) :
  transition_events dev c c = [].
Proof.
  unfold transition_events.
  destruct (Z.eqb_spec c 0) as [->|Hc]; [reflexivity|].
  destruct (Z.eqb_spec c 1) as [->|Hc1]; reflexivity.
Qed.

(** One operation on a live endpoint: the count and the number of held
    tokens move as [expected_step] says, and the device log grows by the
    events of that one transition. *)
Lemma gate_step_spec (a : nat) (h : heap) (held : list power)
    (e : uvc_endpoint) (op : gate_op) :
  lock a h = Some e ->
  Forall (fun p => _owner p = a) held ->
  - 2147483648 < _user_count e ->
  _user_count e + 1 < 2147483648 ->
  exists (h' : heap) (held' : list power) (e' : uvc_endpoint),
    gate_step a (h, held) op = (h', held')
    /\ lock a h' = Some e'
    /\ _device e' = _device e
    /\ (_user_count e', length held')
       = expected_step (_user_count e) (length held) op
    /\ Forall (fun p => _owner p = a) held'
    /\ device_log h' =
         device_log h
         ++ transition_events (_device e) (_user_count e) (_user_count e').
Proof.
  intros Hlock Hheld Hlo Hhi.
  assert (Hinc : wrap32 (_user_count e + 1) = _user_count e + 1)
    by (apply wrap32_id; unfold in_int32; lia).
  assert (Hdec : wrap32 (_user_count e - 1) = _user_count e - 1)
    by (apply wrap32_id; unfold in_int32; lia).
  destruct op as [ok|]; cbn [gate_step expected_step].
  - rewrite (power_new_alive _ a h e Hlock). unfold acquire_power.
    rewrite Hinc.
    destruct (Z.eqb_spec (_user_count e) 0) as [Hz|Hnz]; cbn [andb].
    + destruct ok; cbn [negb].
      * eexists _, _, _. split; [reflexivity|].
        split; [apply lookup_insert_eq|].
        cbn [set_user_count _device _user_count device_log length].
        rewrite transition_events_acquire, Hz.
        repeat split. constructor; [reflexivity | exact Hheld].
      * exists h, held, e. rewrite transition_events_same, app_nil_r.
        repeat split; try assumption; try congruence.
    + eexists _, _, _. split; [reflexivity|].
      split; [apply lookup_insert_eq|].
      cbn [set_user_count _device _user_count device_log length].
      rewrite transition_events_acquire.
      destruct (Z.eqb_spec (_user_count e) 0) as [Hz|_]; [contradiction|].
      rewrite app_nil_r.
      repeat split. constructor; [reflexivity | exact Hheld].
  - destruct held as [|p held'].
    + exists h, [], e. rewrite transition_events_same, app_nil_r.
      repeat split; try assumption; try constructor.
    + apply Forall_cons in Hheld as [Hp Hheld'].
      rewrite <- Hp in Hlock.
      rewrite (power_delete_alive _ p h e Hlock). rewrite Hp.
      unfold release_power. rewrite Hdec.
      cbn [fst snd length].
      eexists _, _, _. split; [reflexivity|].
      split; [apply lookup_insert_eq|].
      cbn [set_user_count _device _user_count device_log].
      rewrite transition_events_release.
      repeat split; [exact Hheld'|].
      destruct (_user_count e - 1 =? 0);
        [reflexivity | rewrite app_nil_r; reflexivity].
Qed.

Lemma expected_step_bounds (c c' : Z) (held held' : nat) (op : gate_op) :
  expected_step c held op = (c', held') ->
  c - 1 <= c' <= c + 1
  /\ c - Z.of_nat held <= c' - Z.of_nat held'.
Proof.
  destruct op as [ok|]; cbn [expected_step].
  - destruct ((c =? 0) && negb ok); intros [= <- <-]; lia.
  - destruct held as [|k]; intros [= <- <-]; lia.
Qed.

Lemma gate_run_spec (a : nat) (ops : list gate_op) :
  forall (h : heap) (held : list power) (e : uvc_endpoint),
    lock a h = Some e ->
    Forall (fun p => _owner p = a) held ->
    - 2147483648 < _user_count e - Z.of_nat (length held) ->
    _user_count e + Z.of_nat (length ops) < 2147483648 ->
    exists (h' : heap) (held' : list power),
      gate_run a (h, held) ops =
        (h', held',
         map Some (expected_counts (_user_count e) (length held) ops))
      /\ device_log h' =
           device_log h
           ++ events_of_counts (_device e) (_user_count e)
                (expected_counts (_user_count e) (length held) ops).
Proof.
  induction ops as [|op ops IH]; intros h held e Hlock Hheld Hlo Hhi.
  - exists h, held. cbn. rewrite app_nil_r. split; reflexivity.
  - cbn [length] in Hhi.
    destruct (gate_step_spec a h held e op Hlock Hheld ltac:(lia) ltac:(lia))
      as (h1 & held1 & e1 & Hstep & Hlock1 & Hdev & Hexp & Hheld1 & Hlog).
    symmetry in Hexp.
    pose proof (expected_step_bounds _ _ _ _ _ Hexp) as [Hc Hk].
    destruct (IH h1 held1 e1 Hlock1 Hheld1 ltac:(lia) ltac:(lia))
      as (h' & held' & Hrun & Hlog').
    exists h', held'.
    cbn [gate_run expected_counts]. rewrite Hstep, Hrun, Hexp.
    cbn [fst map events_of_counts].
    unfold user_count_at. rewrite Hlock1. cbn [fmap option_fmap option_map].
    split; [reflexivity|].
    rewrite Hlog', Hlog, Hdev, <- app_assoc. reflexivity.
Qed.

(** C2.  Tokens are constructed and destroyed one after the other on a
    live endpoint whose user count is [c].  The count after each operation
    is the one [expected_counts] gives: up by one for a construction, down
    by one for a destruction.  The power events the operations add to the
    device log are exactly those of the count's transitions, in order: one
    power-on for each step from 0 to 1, one power-off for each step from 1
    to 0, and nothing else. *)
Theorem power_gate_fires_once_per_transition
    (a : nat) (h : heap) (e : uvc_endpoint) (ops : list gate_op) :
  lock a h = Some e ->
  0 <= _user_count e ->
  _user_count e + Z.of_nat (length ops) < 2147483648 ->
  exists (h' : heap) (held' : list power),
    gate_run a (h, []) ops =
      (h', held', map Some (expected_counts (_user_count e) 0 ops))
    /\ device_log h' =
         device_log h
         ++ events_of_counts (_device e) (_user_count e)
              (expected_counts (_user_count e) 0 ops).
Proof.
  intros Hlock Hpos Hbound.
  apply (gate_run_spec a ops h [] e Hlock); [constructor | simpl; lia | exact Hbound].
Qed.

Lemma power_gate_fires_once_per_transition_witness :
  exists (h' : heap) (held' : list power),
    gate_run 0 (one_endpoint_heap, []) nested_gate_ops =
      (h', held', map Some [1; 2; 1; 0; 0; 1; 0])
    /\ device_log h' =
         [device_power_on 7; device_power_off 7;
          device_power_on 7; device_power_off 7].
Proof.
  exact (power_gate_fires_once_per_transition 0 one_endpoint_heap
           (uvc_endpoint_new sample_archive 7) nested_gate_ops
           eq_refl ltac:(simpl; lia) ltac:(simpl; lia)).
Defined.

(** [invoke_powered] brackets its action with a token: on an idle endpoint
    the device is powered on before the action and off after it. *)
Example invoke_powered_brackets_action :
  let '(res, h') :=
    invoke_powered (acquire_power true) release_power 0
      (fun h => (inr (device_log h), h)) one_endpoint_heap in
  res = inr [device_power_on 7]
  /\ device_log h' = [device_power_on 7; device_power_off 7]
  /\ user_count_at 0 h' = Some 0.
Proof. vm_compute. repeat split. Qed.

(** * Further properties of the reader *)

(** ** What the operations read *)

Lemma read_int32_none_iff (frame : list byte) :
  read_int32 frame = None <-> (length frame < 4)%nat.
Proof.
  destruct frame as [|b0 [|b1 [|b2 [|b3 rest]]]]; simpl;
    (split; [intros Hnone; first [lia | discriminate Hnone]
            | intros Hlen; first [reflexivity | lia]]).
Qed.

(** X1. [get_frame_timestamp] fails to read exactly when the frame has
    fewer than four bytes; what it returns is determined by the reader
    and the first four bytes: neither the mapping nor the rest of the
    frame matter. *)
Theorem get_frame_timestamp_reads_first_four_bytes
    (r : rolling_timestamp_reader) (mode : request_mapping) :
  (forall frame : list byte,
      get_frame_timestamp r mode frame = None <-> (length frame < 4)%nat)
  /\ (forall (mode' : request_mapping) (b0 b1 b2 b3 : byte)
             (rest rest' : list byte),
        get_frame_timestamp r mode (b0 :: b1 :: b2 :: b3 :: rest)
        = get_frame_timestamp r mode' (b0 :: b1 :: b2 :: b3 :: rest')).
Proof.
  split.
  - intros frame. rewrite <- read_int32_none_iff.
    unfold get_frame_timestamp.
    destruct (read_int32 frame); split; intros Hn;
      first [discriminate Hn | reflexivity].
  - intros mode' b0 b1 b2 b3 rest rest'. reflexivity.
Qed.

Lemma scan_nonzero_take (n : nat) (it : list byte) :
  scan_nonzero n (take n it) = scan_nonzero n it.
Proof.
  revert it. induction n as [|n IH]; intros it; [reflexivity|].
  destruct it as [|b it']; [reflexivity|].
  simpl. destruct (u8 b =? 0); simpl; [apply IH | reflexivity].
Qed.

Lemma scan_nonzero_app (n : nat) (it rest : list byte) :
  (n <= length it)%nat -> scan_nonzero n (it ++ rest) = scan_nonzero n it.
Proof.
  intros Hlen.
  rewrite <- (scan_nonzero_take n (it ++ rest)), <- (scan_nonzero_take n it).
  rewrite take_app_le by exact Hlen. reflexivity.
Qed.

(** X2. [validate_frame] looks at the image region only: its answer on a
    buffer is its answer on the first [get_image_size(width, height)]
    bytes, and bytes that follow a complete image region never change
    it. *)
Theorem validate_frame_reads_image_region_only
    (mode : request_mapping) (frame rest : list byte) :
  validate_frame mode (take (N.to_nat (image_size mode)) frame)
    = validate_frame mode frame
  /\ ((N.to_nat (image_size mode) <= length frame)%nat ->
      validate_frame mode (frame ++ rest) = validate_frame mode frame).
Proof.
  unfold validate_frame. split.
  - apply scan_nonzero_take.
  - apply scan_nonzero_app.
Qed.

Lemma validate_frame_reads_image_region_only_witness :
  validate_frame mode_2x2 (zero_frame_8 ++ [xff; xff]) = Some false.
Proof.
  destruct (validate_frame_reads_image_region_only
              mode_2x2 zero_frame_8 [xff; xff]) as [_ Happ].
  rewrite Happ; [reflexivity | vm_compute; lia].
Defined.

Lemma scan_nonzero_none_iff (n : nat) (it : list byte) :
  scan_nonzero n it = None
  <-> (length it < n)%nat /\ Forall (fun b => b = x00) it.
Proof.
  revert it. induction n as [|n IH]; intros it.
  - simpl. split; [discriminate | intros [Hlen _]; lia].
  - destruct it as [|b it']; simpl.
    + split; [intros _; split; [lia | constructor] | reflexivity].
    + destruct (u8 b =? 0) eqn:Hb; simpl.
      * apply Z.eqb_eq, u8_zero_iff in Hb. subst b. rewrite IH.
        split; intros [Hlen Hz]; (split; [lia|]).
        -- constructor; [reflexivity | exact Hz].
        -- apply Forall_cons in Hz as [_ Hz]. exact Hz.
      * apply Z.eqb_neq in Hb.
        split; [discriminate|]. intros [_ Hz].
        apply Forall_cons in Hz as [Hz _]. subst b. contradiction Hb.
        reflexivity.
Qed.

(** X3. [validate_frame] reads past the end of the buffer exactly when
    the buffer is shorter than the image region and holds zero bytes
    only; a buffer with a nonzero byte is answered before its end is
    reached, and a buffer that covers the region is always answered. *)
Theorem validate_frame_overrun_iff_short_and_zero
    (mode : request_mapping) (frame : list byte) :
  validate_frame mode frame = None
  <-> (length frame < N.to_nat (image_size mode))%nat
      /\ Forall (fun b => b = x00) frame.
Proof. unfold validate_frame. apply scan_nonzero_none_iff. Qed.

(** ** Accumulating ticks *)

Lemma wrap32_sub_wrap32_r (a b : Z) : wrap32 (a - wrap32 b) = wrap32 (a - b).
Proof.
  unfold wrap32.
  pose proof (Z.div_mod (b + 2147483648) 4294967296 ltac:(lia)) as Hb.
  replace (a - ((b + 2147483648) mod 4294967296 - 2147483648) + 2147483648)
    with (a - b + 2147483648
          + ((b + 2147483648) / 4294967296) * 4294967296) by lia.
  rewrite Z.mod_add by lia. reflexivity.
Qed.

Lemma wrap32_diff (T T' : Z) : wrap32 (wrap32 T' - wrap32 T) = wrap32 (T' - T).
Proof. rewrite wrap32_sub_wrap32_l, wrap32_sub_wrap32_r. reflexivity. Qed.

Lemma get_frame_timestamp_ticks (tot T T' k : Z) (mode : request_mapping)
    (frame : list byte) :
  carries_tick frame T' ->
  get_frame_timestamp
    {| started := true; total := tot; last_timestamp := wrap32 T;
       counter := k |} mode frame
  = Some (wrap32 (Z.quot (wrap64 (tot + wrap32 (T' - T))) 100000),
          {| started := true; total := wrap64 (tot + wrap32 (T' - T));
             last_timestamp := wrap32 T'; counter := k |}).
Proof.
  intros Hread. unfold carries_tick in Hread.
  rewrite (get_frame_timestamp_started
             {| started := true; total := tot; last_timestamp := wrap32 T;
                counter := k |} mode frame _ eq_refl Hread).
  cbn [total last_timestamp counter]. rewrite wrap32_diff. reflexivity.
Qed.

(** X4. One call after the first, on a frame taken [d] ticks after the
    last one: the total grows by [d] reduced to 32 bits.  That is [d]
    itself when the frames are less than half the counter range apart, in
    either direction; a forward gap of half the range or more is counted
    as [d - 2^32], a step backwards. *)
Theorem get_frame_timestamp_accumulates_true_step
    (r : rolling_timestamp_reader) (mode : request_mapping)
    (frame : list byte) (T d : Z) :
  started r = true ->
  last_timestamp r = wrap32 T ->
  carries_tick frame (T + d) ->
  exists (t : Z) (r' : rolling_timestamp_reader),
    get_frame_timestamp r mode frame = Some (t, r')
    /\ total r' = wrap64 (total r + wrap32 d)
    /\ last_timestamp r' = wrap32 (T + d)
    /\ (in_int32 d -> wrap32 d = d)
    /\ (2147483648 <= d < 4294967296 -> wrap32 d = d - 4294967296).
Proof.
  intros Hstarted Hlast Hread. destruct r as [s tot l k].
  cbn [started last_timestamp total] in *. subst s l.
  rewrite (get_frame_timestamp_ticks tot T (T + d) k mode frame Hread).
  replace (T + d - T) with d by lia.
  eexists _, _. split; [reflexivity|]. cbn [total last_timestamp].
  repeat split.
  - apply wrap32_id.
  - intros Hd. unfold wrap32.
    replace (d + 2147483648) with (d - 2147483648 + 1 * 4294967296) by lia.
    rewrite Z.mod_add, Z.mod_small by lia. lia.
Qed.

Lemma get_frame_timestamp_accumulates_true_step_witness :
  exists (t : Z) (r' : rolling_timestamp_reader),
    get_frame_timestamp
      {| started := true; total := 500; last_timestamp := wrap32 4294967000;
         counter := 0 |}
      mode_2x2 (frame_of_counter (4294967000 + 1000) [])
    = Some (t, r')
    /\ total r' = wrap64 (500 + wrap32 1000)
    /\ last_timestamp r' = wrap32 (4294967000 + 1000)
    /\ (in_int32 1000 -> wrap32 1000 = 1000)
    /\ (2147483648 <= 1000 < 4294967296 -> wrap32 1000 = 1000 - 4294967296).
Proof.
  apply (get_frame_timestamp_accumulates_true_step
           {| started := true; total := 500;
              last_timestamp := wrap32 4294967000; counter := 0 |}
           mode_2x2 (frame_of_counter (4294967000 + 1000) [])
           4294967000 1000).
  - reflexivity.
  - reflexivity.
  - apply read_int32_frame_of_counter.
Defined.

Lemma steps_fit_int32_cons (T T' : Z) (Ts : list Z) :
  steps_fit_int32 T (T' :: Ts) = true ->
  in_int32 (T' - T) /\ steps_fit_int32 T' Ts = true.
Proof.
  cbn [steps_fit_int32]. unfold in_int32. intros H.
  apply andb_true_iff in H as [H Hrest].
  apply andb_true_iff in H as [Hlo Hhi].
  apply Z.leb_le in Hlo. apply Z.ltb_lt in Hhi. auto.
Qed.

Lemma elapsed_fits_int64_cons (T0 T : Z) (Ts : list Z) :
  elapsed_fits_int64 T0 (T :: Ts) = true ->
  in_int64 (T - T0) /\ elapsed_fits_int64 T0 Ts = true.
Proof.
  unfold elapsed_fits_int64. cbn [forallb]. unfold in_int64. intros H.
  apply andb_true_iff in H as [H Hrest].
  apply andb_true_iff in H as [Hlo Hhi].
  apply Z.leb_le in Hlo. apply Z.ltb_lt in Hhi. auto.
Qed.

Lemma last_cons_default (l : list Z) (a d d' : Z) :
  List.last (a :: l) d = List.last (a :: l) d'.
Proof.
  revert a. induction l as [|b l IH]; intros a; [reflexivity|].
  change (List.last (b :: l) d = List.last (b :: l) d'). apply IH.
Qed.

(** The run after the first frame: the reader holds the ticks elapsed
    between the first frame and the frame of tick [T]. *)
Lemma reader_run_ticks_from (mode : request_mapping) (T0 : Z)
    (frames : list (list byte)) :
  forall (Ts : list Z) (T k : Z),
    Forall2 carries_tick frames Ts ->
    steps_fit_int32 T Ts = true ->
    elapsed_fits_int64 T0 Ts = true ->
    exists r' : rolling_timestamp_reader,
      reader_run {| started := true; total := T - T0;
                    last_timestamp := wrap32 T; counter := k |}
                 (map (call_get_frame_timestamp mode) frames)
      = Some (map (fun T' => ret_timestamp (timestamp_of_ticks T0 T')) Ts, r')
      /\ r' = {| started := true; total := List.last Ts T - T0;
                 last_timestamp := wrap32 (List.last Ts T); counter := k |}.
Proof.
  induction frames as [|frame frames IH]; intros Ts T k Hcarry Hsteps Hfit.
  - inversion Hcarry; subst. eexists. split; reflexivity.
  - inversion Hcarry as [|? T' ? Ts' Hframe Hrest]; subst.
    apply steps_fit_int32_cons in Hsteps as [Hstep Hsteps].
    apply elapsed_fits_int64_cons in Hfit as [Hel Hfit].
    destruct (IH Ts' T' k Hrest Hsteps Hfit) as (r' & Hrun & Hr').
    exists r'. cbn [map reader_run reader_step].
    rewrite (get_frame_timestamp_ticks _ T T' k mode frame Hframe).
    rewrite (wrap32_id _ Hstep).
    replace (T - T0 + (T' - T)) with (T' - T0) by lia.
    rewrite (wrap64_id _ Hel), Hrun.
    split; [reflexivity|].
    rewrite Hr'. destruct Ts' as [|T'' Ts'']; [reflexivity|].
    change (List.last (T' :: T'' :: Ts'') T) with (List.last (T'' :: Ts'') T).
    rewrite (last_cons_default Ts'' T'' T' T). reflexivity.
Qed.

(** X5. A fresh reader is given frames taken at the ticks [T0, T1, ...]
    of a counter that rolls over any number of times.  When consecutive
    frames are less than half the counter range apart, the reader's total
    is at each frame the number of ticks elapsed since the first frame,
    and the timestamps are the elapsed ticks divided by 100000 (narrowed
    to 32 bits): the rollovers are invisible. *)
Theorem reader_run_recovers_elapsed_ticks
    (g : Z) (mode : request_mapping) (T0 : Z) (Ts : list Z)
    (frames : list (list byte)) :
  Forall2 carries_tick frames (T0 :: Ts) ->
  steps_fit_int32 T0 Ts = true ->
  elapsed_fits_int64 T0 Ts = true ->
  exists (r' : rolling_timestamp_reader),
    reader_run (rolling_timestamp_reader_new g)
               (map (call_get_frame_timestamp mode) frames)
    = Some (map (fun T => ret_timestamp (timestamp_of_ticks T0 T)) (T0 :: Ts),
            r')
    /\ total r' = List.last Ts T0 - T0
    /\ last_timestamp r' = wrap32 (List.last Ts T0).
Proof.
  intros Hcarry Hsteps Hfit.
  inversion Hcarry as [|frame ? frames' ? Hframe Hrest]; subst.
  unfold carries_tick in Hframe.
  destruct (reader_run_ticks_from mode T0 frames' Ts T0 0 Hrest Hsteps Hfit)
    as (r' & Hrun & Hr').
  exists r'. cbn [map reader_run reader_step].
  rewrite (get_frame_timestamp_first (rolling_timestamp_reader_new g)
             mode frame _ eq_refl Hframe).
  cbn [total counter rolling_timestamp_reader_new].
  change (wrap64 0) with 0.
  replace (T0 - T0) with 0 in Hrun by lia.
  rewrite Hrun. split; [|rewrite Hr'; split; reflexivity].
  f_equal. f_equal. f_equal. unfold timestamp_of_ticks.
  replace (T0 - T0) with 0 by lia. reflexivity.
Qed.

Lemma reader_run_recovers_elapsed_ticks_witness :
  exists (r' : rolling_timestamp_reader),
    reader_run (rolling_timestamp_reader_new 9)
               (map (call_get_frame_timestamp mode_2x2) rollover_frames)
    = Some (map ret_timestamp [0; 9; 18; 27], r')
    /\ total r' = 2700000
    /\ last_timestamp r' = 1732704.
Proof.
  apply (reader_run_recovers_elapsed_ticks 9 mode_2x2 4294000000
           [4294900000; 4295800000; 4296700000] rollover_frames).
  - unfold rollover_frames, rollover_ticks. cbn [map].
    repeat constructor; apply read_int32_frame_of_counter.
  - reflexivity.
  - reflexivity.
Defined.

Lemma steps_forward_cons (T T' : Z) (Ts : list Z) :
  steps_forward T (T' :: Ts) = true ->
  0 <= T' - T < 2147483648 /\ steps_forward T' Ts = true.
Proof.
  cbn [steps_forward]. intros H.
  apply andb_true_iff in H as [H Hrest].
  apply andb_true_iff in H as [Hlo Hhi].
  apply Z.leb_le in Hlo. apply Z.ltb_lt in Hhi. auto.
Qed.

Lemma steps_forward_fit (Ts : list Z) :
  forall T : Z, steps_forward T Ts = true -> steps_fit_int32 T Ts = true.
Proof.
  induction Ts as [|T' Ts IH]; intros T Hfwd; [reflexivity|].
  apply steps_forward_cons in Hfwd as [Hstep Hfwd].
  cbn [steps_fit_int32]. rewrite (IH T' Hfwd).
  destruct (Z.leb_spec (- 2147483648) (T' - T)); [|lia].
  destruct (Z.ltb_spec (T' - T) 2147483648); [reflexivity | lia].
Qed.

Lemma timestamps_of_forward_ticks_non_decreasing (T0 : Z) (Ts : list Z) :
  forall T : Z,
    T0 <= T ->
    Z.quot (T - T0) 100000 < 2147483648 ->
    steps_forward T Ts = true ->
    timestamps_fit_int32 T0 Ts = true ->
    non_decreasing (map (timestamp_of_ticks T0) (T :: Ts)) = true.
Proof.
  induction Ts as [|T' Ts IH]; intros T HT Hq Hfwd Hfit; [reflexivity|].
  apply steps_forward_cons in Hfwd as [Hstep Hfwd].
  unfold timestamps_fit_int32 in Hfit. cbn [forallb] in Hfit.
  apply andb_true_iff in Hfit as [Hq' Hfit]. apply Z.ltb_lt in Hq'.
  change (non_decreasing (map (timestamp_of_ticks T0) (T :: T' :: Ts)))
    with ((timestamp_of_ticks T0 T <=? timestamp_of_ticks T0 T')
          && non_decreasing (map (timestamp_of_ticks T0) (T' :: Ts))).
  rewrite (IH T' ltac:(lia) Hq' Hfwd Hfit), andb_true_r.
  apply Z.leb_le. unfold timestamp_of_ticks.
  assert (0 <= Z.quot (T - T0) 100000) by (apply Z.quot_pos; lia).
  assert (0 <= Z.quot (T' - T0) 100000) by (apply Z.quot_pos; lia).
  rewrite !wrap32_id by (unfold in_int32; lia).
  apply Z.quot_le_mono; lia.
Qed.

(** X6. When the ticks only move forward, consecutive frames are less
    than half the counter range apart and every timestamp stays below
    [2^31], the timestamps a fresh reader returns never decrease, however
    often the 32-bit counter rolls over in between. *)
Theorem reader_run_forward_ticks_non_decreasing
    (g : Z) (mode : request_mapping) (T0 : Z) (Ts : list Z)
    (frames : list (list byte)) :
  Forall2 carries_tick frames (T0 :: Ts) ->
  steps_forward T0 Ts = true ->
  elapsed_fits_int64 T0 Ts = true ->
  timestamps_fit_int32 T0 Ts = true ->
  exists (xs : list reader_result) (r' : rolling_timestamp_reader),
    reader_run (rolling_timestamp_reader_new g)
               (map (call_get_frame_timestamp mode) frames)
    = Some (xs, r')
    /\ length (timestamp_results xs) = length frames
    /\ non_decreasing (timestamp_results xs) = true.
Proof.
  intros Hcarry Hfwd Hel Hfit.
  inversion Hcarry as [|frame ? frames' ? Hframe Hrest]; subst.
  unfold carries_tick in Hframe.
  destruct (reader_run_ticks_from mode T0 frames' Ts T0 0 Hrest
              (steps_forward_fit Ts T0 Hfwd) Hel) as (r' & Hrun & _).
  replace (T0 - T0) with 0 in Hrun by lia.
  eexists _, r'. cbn [map reader_run reader_step].
  rewrite (get_frame_timestamp_first (rolling_timestamp_reader_new g)
             mode frame _ eq_refl Hframe).
  cbn [total counter rolling_timestamp_reader_new].
  change (wrap64 0) with 0. rewrite Hrun.
  split; [reflexivity|].
  assert (Hres : forall l : list Z,
             timestamp_results
               (map (fun T => ret_timestamp (timestamp_of_ticks T0 T)) l)
             = map (timestamp_of_ticks T0) l).
  { induction l as [|T l IHl]; [reflexivity|].
    cbn [map timestamp_results]. rewrite IHl. reflexivity. }
  change (wrap32 (Z.quot 0 100000)) with 0.
  cbn [timestamp_results]. rewrite Hres.
  split.
  - cbn [length]. rewrite length_map.
    apply Forall2_length in Hrest. rewrite Hrest. reflexivity.
  - assert (H0 : 0 = timestamp_of_ticks T0 T0).
    { unfold timestamp_of_ticks. replace (T0 - T0) with 0 by lia.
      reflexivity. }
    rewrite H0.
    apply (timestamps_of_forward_ticks_non_decreasing T0 Ts T0);
      [lia | | exact Hfwd | exact Hfit].
    replace (T0 - T0) with 0 by lia. reflexivity.
Qed.

Lemma reader_run_forward_ticks_non_decreasing_witness :
  exists (xs : list reader_result) (r' : rolling_timestamp_reader),
    reader_run (rolling_timestamp_reader_new 9)
               (map (call_get_frame_timestamp mode_2x2) rollover_frames)
    = Some (xs, r')
    /\ length (timestamp_results xs) = length rollover_frames
    /\ non_decreasing (timestamp_results xs) = true.
Proof.
  apply (reader_run_forward_ticks_non_decreasing 9 mode_2x2 4294000000
           [4294900000; 4295800000; 4296700000] rollover_frames).
  - unfold rollover_frames, rollover_ticks. cbn [map].
    repeat constructor; apply read_int32_frame_of_counter.
  - reflexivity.
  - reflexivity.
  - reflexivity.
Defined.

(** ** The uninitialised member *)

Lemma reader_step_agree (r s : rolling_timestamp_reader) (c : reader_call) :
  agree_up_to_unset_last r s ->
  match reader_step r c, reader_step s c with
  | Some (x, r'), Some (y, s') => x = y /\ agree_up_to_unset_last r' s'
  | None, None => True
  | _, _ => False
  end.
Proof.
  intros (Hst & Htot & Hcnt & Hlast).
  destruct r as [st tot l k], s as [st' tot' l' k'].
  cbn [started total counter last_timestamp] in *. subst st' tot' k'.
  destruct c as [mode frame | mode frame | mode frame]; cbn [reader_step].
  - destruct (validate_frame mode frame); [|exact I].
    split; [reflexivity|]. repeat split; auto.
  - unfold get_frame_timestamp. destruct (read_int32 frame) as [cur|];
      [|exact I].
    destruct st; cbn [negb started total last_timestamp counter].
    + rewrite (Hlast eq_refl). split; [reflexivity|]. repeat split.
    + split; [reflexivity|]. repeat split.
  - unfold get_frame_counter. cbn [started total last_timestamp counter].
    split; [reflexivity|]. repeat split. exact Hlast.
Qed.

Lemma reader_run_agree (cs : list reader_call) :
  forall r s : rolling_timestamp_reader,
    agree_up_to_unset_last r s ->
    fst <$> reader_run r cs = fst <$> reader_run s cs.
Proof.
  induction cs as [|c cs IH]; intros r s Hagree; [reflexivity|].
  cbn [reader_run].
  pose proof (reader_step_agree r s c Hagree) as Hstep.
  destruct (reader_step r c) as [[x r']|], (reader_step s c) as [[y s']|];
    try contradiction; [|reflexivity].
  destruct Hstep as [-> Hagree'].
  specialize (IH r' s' Hagree').
  destruct (reader_run r' cs) as [[xs r'']|],
           (reader_run s' cs) as [[ys s'']|];
    cbn in IH |- *; congruence.
Qed.

(** X7. The constructor leaves [last_timestamp] uninitialised.  Whatever
    is called on a new reader, in whatever order, no result depends on the
    value the member happens to hold: it is written by the first call of
    [get_frame_timestamp] before it is read. *)
Theorem reader_results_independent_of_uninitialised_last
    (g g' : Z) (cs : list reader_call) :
  fst <$> reader_run (rolling_timestamp_reader_new g) cs
  = fst <$> reader_run (rolling_timestamp_reader_new g') cs.
Proof.
  apply reader_run_agree. repeat split. discriminate.
Qed.

(** ** How the operations compose *)

(** X8. The timestamp and the frame number of a frame can be asked for in
    either order: the two results and the reader afterwards are the
    same. *)
Theorem get_frame_timestamp_counter_commute
    (r : rolling_timestamp_reader) (mode mode' : request_mapping)
    (frame frame' : list byte) :
  match get_frame_timestamp r mode frame with
  | Some (t, r1) =>
      let '(n, r2) := get_frame_counter r1 mode' frame' in Some (t, n, r2)
  | None => None
  end
  = let '(n, r1) := get_frame_counter r mode' frame' in
    match get_frame_timestamp r1 mode frame with
    | Some (t, r2) => Some (t, n, r2)
    | None => None
    end.
Proof.
  unfold get_frame_counter, get_frame_timestamp.
  destruct (read_int32 frame) as [cur|]; [|reflexivity].
  destruct r as [st tot l k]. destruct st; reflexivity.
Qed.

(** X9. A frame handed to [get_frame_timestamp] a second time, right
    after the first, adds nothing: the call returns the same timestamp
    and leaves the reader as it is. *)
Theorem get_frame_timestamp_repeated_frame
    (r r' : rolling_timestamp_reader) (mode : request_mapping)
    (frame : list byte) (t : Z) :
  get_frame_timestamp r mode frame = Some (t, r') ->
  get_frame_timestamp r' mode frame = Some (t, r').
Proof.
  unfold get_frame_timestamp.
  destruct (read_int32 frame) as [cur|]; [|discriminate].
  intros [= <- <-].
  assert (Hst : forall q : rolling_timestamp_reader,
             started (if negb (started q)
                      then {| started := true; total := total q;
                              last_timestamp := cur; counter := counter q |}
                      else q) = true)
    by (intros [[] ? ? ?]; reflexivity).
  rewrite Hst. cbn [negb started total last_timestamp counter].
  replace (cur - cur) with 0 by lia. change (wrap32 0) with 0.
  rewrite Z.add_0_r, (wrap64_id _ (wrap64_range _)). reflexivity.
Qed.

Lemma get_frame_timestamp_repeated_frame_witness :
  get_frame_timestamp reader_past_int_range mode_2x2
    (frame_of_counter 2147383647 [])
  = Some (- 2147462175, reader_past_int_range).
Proof.
  apply (get_frame_timestamp_repeated_frame reader_after_fast_run
           reader_past_int_range mode_2x2 (frame_of_counter 2147383647 [])
           (- 2147462175)).
  vm_compute. reflexivity.
Defined.

Lemma get_frame_timestamp_agree (r s : rolling_timestamp_reader)
    (mode : request_mapping) (frame : list byte) :
  agree_except_counter r s ->
  match get_frame_timestamp r mode frame, get_frame_timestamp s mode frame with
  | Some (t, r'), Some (u, s') => t = u /\ agree_except_counter r' s'
  | None, None => True
  | _, _ => False
  end.
Proof.
  intros (Hst & Htot & Hlast).
  destruct r as [st tot l k], s as [st' tot' l' k'].
  cbn [started total last_timestamp] in *. subst st' tot' l'.
  unfold get_frame_timestamp. destruct (read_int32 frame) as [cur|];
    [|exact I].
  destruct st; cbn [negb started total last_timestamp counter];
    (split; [reflexivity | repeat split]).
Qed.

Lemma reader_run_timestamps_only (cs : list reader_call) :
  forall (r s : rolling_timestamp_reader) (xs : list reader_result)
         (r' : rolling_timestamp_reader),
    agree_except_counter r s ->
    reader_run r cs = Some (xs, r') ->
    exists (ys : list reader_result) (s' : rolling_timestamp_reader),
      reader_run s (List.filter is_timestamp_call cs) = Some (ys, s')
      /\ timestamp_results ys = timestamp_results xs
      /\ agree_except_counter r' s'.
Proof.
  induction cs as [|c cs IH]; intros r s xs r' Hagree Hrun.
  - injection Hrun as <- <-. exists [], s. repeat split; apply Hagree.
  - cbn [reader_run] in Hrun.
    destruct (reader_step r c) as [[x r1]|] eqn:Hstep; [|discriminate].
    destruct (reader_run r1 cs) as [[xs1 r2]|] eqn:Hrest; [|discriminate].
    injection Hrun as <- <-.
    destruct c as [mode frame | mode frame | mode frame];
      cbn [List.filter is_timestamp_call reader_step] in Hstep |- *.
    + destruct (validate_frame mode frame); [|discriminate].
      injection Hstep as <- <-.
      destruct (IH r s xs1 r2 Hagree Hrest) as (ys & s' & Hs & Hts & Hag).
      exists ys, s'. repeat split; [exact Hs | exact Hts | apply Hag ..].
    + pose proof (get_frame_timestamp_agree r s mode frame Hagree) as Hts.
      destruct (get_frame_timestamp r mode frame) as [[t r1']|];
        [|discriminate].
      injection Hstep as <- <-.
      destruct (get_frame_timestamp s mode frame) as [[u s1]|] eqn:Hs1;
        [|contradiction].
      destruct Hts as [<- Hagree1].
      destruct (IH r1' s1 xs1 r2 Hagree1 Hrest) as (ys & s' & Hs & Hres & Hag).
      exists (ret_timestamp t :: ys), s'.
      cbn [reader_run reader_step]. rewrite Hs1, Hs.
      cbn [timestamp_results]. rewrite Hres.
      repeat split; apply Hag.
    + unfold get_frame_counter in Hstep. injection Hstep as <- <-.
      apply (IH _ s xs1 r2) in Hrest; [|exact Hagree].
      destruct Hrest as (ys & s' & Hs & Hts & Hag).
      exists ys, s'. repeat split; [exact Hs | exact Hts | apply Hag ..].
Qed.

(** X10. Calls of [validate_frame] and [get_frame_counter] between the
    calls of [get_frame_timestamp] have no influence on the timestamps: a
    run returns the timestamps that the run of its timestamp calls alone
    returns, and ends with the same total and the same last reading. *)
Theorem reader_timestamps_ignore_other_calls
    (g : Z) (cs : list reader_call) (xs : list reader_result)
    (r' : rolling_timestamp_reader) :
  reader_run (rolling_timestamp_reader_new g) cs = Some (xs, r') ->
  exists (ys : list reader_result) (s' : rolling_timestamp_reader),
    reader_run (rolling_timestamp_reader_new g)
               (List.filter is_timestamp_call cs) = Some (ys, s')
    /\ timestamp_results ys = timestamp_results xs
    /\ total s' = total r'
    /\ last_timestamp s' = last_timestamp r'.
Proof.
  intros Hrun.
  destruct (reader_run_timestamps_only cs _ (rolling_timestamp_reader_new g)
              xs r' ltac:(repeat split) Hrun)
    as (ys & s' & Hs & Hts & _ & Htot & Hlast).
  exists ys, s'. repeat split; [exact Hs | exact Hts | | ]; congruence.
Qed.

Lemma reader_timestamps_ignore_other_calls_witness :
  exists (ys : list reader_result) (s' : rolling_timestamp_reader),
    reader_run (rolling_timestamp_reader_new 5)
               (List.filter is_timestamp_call interleaved_calls)
    = Some (ys, s')
    /\ timestamp_results ys
       = timestamp_results
           [ret_counter 1; ret_valid false; ret_counter 2; ret_timestamp 0;
            ret_valid true; ret_timestamp 0; ret_counter 3]
    /\ total s' = 50000
    /\ last_timestamp s' = 750000.
Proof.
  apply (reader_timestamps_ignore_other_calls 5 interleaved_calls
           [ret_counter 1; ret_valid false; ret_counter 2; ret_timestamp 0;
            ret_valid true; ret_timestamp 0; ret_counter 3]
           {| started := true; total := 50000; last_timestamp := 750000;
              counter := 3 |}).
  vm_compute. reflexivity.
Defined.

(** * Further properties of the endpoints *)

(** X11. Registering pixel formats appends them, in the order of
    registration, to the ones registered before; nothing is dropped or
    reordered, and the streaming state, the publish limit, the archive
    and the cached stream profiles are left alone. *)
Theorem register_pixel_format_appends
    (e : endpoint) (ps : list native_pixel_format) :
  let e' := fold_left register_pixel_format ps e in
  _pixel_formats e' = _pixel_formats e ++ ps
  /\ _stream_profiles e' = _stream_profiles e
  /\ _is_streaming e' = _is_streaming e
  /\ _is_opened e' = _is_opened e
  /\ _max_publish_list_size e' = _max_publish_list_size e
  /\ _archive e' = _archive e.
Proof.
  revert e. induction ps as [|p ps IH]; intros e.
  - cbn. rewrite app_nil_r. repeat split.
  - cbn [fold_left].
    destruct (IH (register_pixel_format e p)) as (Hpf & Hsp & Hs & Ho & Hm & Ha).
    cbn zeta. rewrite Hpf, Hsp, Hs, Ho, Hm, Ha.
    cbn [register_pixel_format _pixel_formats _stream_profiles _is_streaming
           _is_opened _max_publish_list_size _archive].
    rewrite <- app_assoc. repeat split.
Qed.










